(** * Intro to PyTorch notebooks (Part 2 and Part 3): a shallow embedding

    The notebooks hold a few lines of code of their own: the manual
    [sigmoid] and [softmax] of Part 2, the flattening of an image batch
    with [images.view(images.shape[0], -1)], and the training loop of
    Part 3.  Tensors are modelled over the real numbers, as a shape and a
    row-major list of entries; calls into the framework whose result the
    notebooks do not determine (the network's forward pass, the loss,
    autograd) are section variables. *)

From Stdlib Require Import String.
From Stdlib Require Import Reals List Lra Lia ZArith Bool Arith Permutation.
Import ListNotations.

Local Open Scope R_scope.

(** ** Tensors *)

Module Torch.

(** A tensor: its sizes ([x.shape]) and its entries in row-major order. *)
Record Tensor : Type := mkTensor { shape : list nat; data : list R }.

Definition numel_of (sh : list nat) : nat := fold_right Nat.mul 1%nat sh.

(** The entries fill the shape exactly. *)
Definition well_formed (t : Tensor) : Prop :=
  length (data t) = numel_of (shape t).

(** Element-wise application: [torch.exp(x)], [-x], [1 + x], [1 / x]. *)
Definition tmap (f : R -> R) (t : Tensor) : Tensor :=
  mkTensor (shape t) (map f (data t)).

Definition exp (t : Tensor) : Tensor := tmap Rtrigo_def.exp t.
Definition neg (t : Tensor) : Tensor := tmap Ropp t.
(** [c + x] with a Python number on the left. *)
Definition radd (c : R) (t : Tensor) : Tensor := tmap (fun v => c + v) t.
(** [c / x] with a Python number on the left. *)
Definition rdiv (c : R) (t : Tensor) : Tensor := tmap (fun v => c / v) t.

Definition Rsum (l : list R) : R := fold_right Rplus 0 l.

(** [torch.sum(x)] with no [dim]: the sum of all the entries, whatever
    the shape. *)
Definition sum (t : Tensor) : R := Rsum (data t).

(** [torch.div(x, d)] with a zero-dimensional divisor: every entry is
    divided by the same number. *)
Definition div (t : Tensor) (d : R) : Tensor := tmap (fun v => v / d) t.

(** Element-wise sum of two tensors of one shape. *)
Fixpoint zip_with (f : R -> R -> R) (a b : list R) : list R :=
  match a, b with
  | x :: a', y :: b' => f x y :: zip_with f a' b'
  | _, _ => []
  end.

Definition add (a b : Tensor) : Tensor :=
  mkTensor (shape a) (zip_with Rplus (data a) (data b)).

(** [torch.zeros(sh)] and the like. *)
Definition full (sh : list nat) (c : R) : Tensor :=
  mkTensor sh (repeat c (numel_of sh)).

(** The [m] rows of [n] entries of a row-major list. *)
Fixpoint rows (m n : nat) (l : list R) : list (list R) :=
  match m with
  | O => []
  | S m' => firstn n l :: rows m' n (skipn n l)
  end.

(** The rows of a two-dimensional tensor (one row per sample). *)
Definition rows_of (t : Tensor) : list (list R) :=
  match shape t with
  | [m; n] => rows m n (data t)
  | _ => []
  end.

(** [x.sum(dim=1)] on a two-dimensional tensor: one sum per row.  Other
    ranks are not used by the notebooks and give [None]. *)
Definition sum_dim1 (t : Tensor) : option Tensor :=
  match shape t with
  | [m; n] => Some (mkTensor [m] (map Rsum (rows m n (data t))))
  | _ => None
  end.

(** Entry [(i, j)] of a two-dimensional tensor. *)
Definition get2 (t : Tensor) (i j : nat) : R :=
  match shape t with
  | [_; n] => nth (i * n + j) (data t) 0
  | _ => 0
  end.

(** Entry [(i, c, h, w)] of a four-dimensional tensor. *)
Definition get4 (t : Tensor) (i c h w : nat) : R :=
  match shape t with
  | [_; nc; nh; nw] => nth (((i * nc + c) * nh + h) * nw + w) (data t) 0
  | _ => 0
  end.

(** [x.view(x.shape[0], -1)]: the same entries under the shape
    [[n; numel / n]].  The framework refuses the call when the missing
    size cannot be inferred (no leading dimension, [n = 0], or [n] not
    dividing the number of entries). *)
Definition view_flat (t : Tensor) : option Tensor :=
  match shape t with
  | [] => None
  | n :: _ =>
      let k := length (data t) in
      if (n =? 0)%nat then None
      else if (k mod n =? 0)%nat then Some (mkTensor [n; (k / n)%nat] (data t))
      else None
  end.

End Torch.

Import Torch.

(** ** Part 2: the manual activation functions *)

(** [def sigmoid(x): return 1 / (1 + torch.exp(-x))] *)
Definition sigmoid (x : Tensor) : Tensor :=
  rdiv 1 (radd 1 (Torch.exp (neg x))).

(** [def softmax(x):
       return torch.div(torch.exp(x), torch.sum(torch.exp(x)) + 1e-8)] *)
Definition softmax (x : Tensor) : Tensor :=
  Torch.div (Torch.exp x) (Torch.sum (Torch.exp x) + 1e-8).

(** The logistic function of the text books, on one real number. *)
Definition logistic (t : R) : R := 1 / (1 + Rtrigo_def.exp (- t)).

(** The softmax of the text books, as the notebook's prose writes it:
    the entry [j] of sample [i] is [e^{x_ij}] over the sum of [e^{x_ik}]
    for the entries [k] of that sample. *)
Definition standard_softmax_entry (x : Tensor) (i j : nat) : R :=
  Rtrigo_def.exp (get2 x i j) /
  Rsum (map Rtrigo_def.exp (nth i (rows_of x) [])).

(** ** Part 3: the data loader *)

Module Data.

(** One item of the training set: the image tensor the transform
    produces and the digit it shows. *)
Abbreviation Sample := (Tensor * Z)%type.

(** What the loader yields: [images, labels]. *)
Record Batch : Type := mkBatch { images : Tensor; labels : list Z }.

(** The framework's batch sampler, which the notebooks leave at its
    default [drop_last=False]: indices are appended to [batch] until it
    holds [batch_size] of them, the full batch is yielded and a new one
    begun; what is left at the end is yielded too when it is not empty. *)
Fixpoint batch_sampler {A : Type} (batch_size : nat) (batch sampler : list A)
  : list (list A) :=
  match sampler with
  | [] => if (0 <? length batch)%nat then [batch] else []
  | idx :: rest =>
      let batch' := batch ++ [idx] in
      if (length batch' =? batch_size)%nat
      then batch' :: batch_sampler batch_size [] rest
      else batch_sampler batch_size batch' rest
  end.

(** The framework's default collation: the images stacked along a new
    leading dimension, the labels gathered in one tensor.  (Stacking
    wants images of one shape, which the images of a data set have; the
    shape of the first one is taken.) *)
Definition collate (samples : list Sample) : Batch :=
  mkBatch
    (mkTensor (length samples ::
               match samples with [] => [] | s :: _ => shape (fst s) end)
              (concat (map (fun s => data (fst s)) samples)))
    (map snd samples).

(** [DataLoader(trainset, batch_size=..., shuffle=True)]. *)
Record Loader : Type := mkLoader { dataset : list Sample; batch_size : nat }.

(** One pass over the loader, given the order in which the sampler
    visits the data set in that pass. *)
Definition batches (order : list Sample -> list Sample) (ld : Loader)
  : list Batch :=
  map collate (batch_sampler (batch_size ld) [] (order (dataset ld))).

(** [len(trainloader)]: the number of batches of one pass. *)
Definition len (ld : Loader) : nat :=
  ((length (dataset ld) + batch_size ld - 1) / batch_size ld)%nat.

End Data.

Import Data.

(** The shape the specification gives for a batch, its flattening and
    its labels. *)
Definition batch_as_specified (b : Batch) : Prop :=
  shape (images b) = [64; 1; 28; 28]%nat /\
  (exists f, view_flat (images b) = Some f /\
             shape f = [64; 784]%nat /\
             forall i c h w, get2 f i ((c * 28 + h) * 28 + w) = get4 (images b) i c h w) /\
  length (labels b) = 64%nat /\
  Forall (fun l => (0 <= l <= 9)%Z) (labels b).

(** A training set of the size of MNIST's (60000 samples), every image
    blank and labelled 0. *)
Definition blank_mnist : list Sample :=
  repeat (full [1; 28; 28]%nat 0, 0%Z) (600 * 100).

(** ** Part 3: the training loop *)

(** The calls whose result the notebooks leave to the framework. *)
Record Framework : Type := mkFramework {
  (** what the framework raises *)
  fw_exn : Type;
  (** [model(images)] for the current parameter values *)
  model_forward : list Tensor -> Tensor -> fw_exn + Tensor;
  (** [criterion(output, labels)] *)
  criterion : Tensor -> list Z -> fw_exn + R;
  (** autograd: the gradient of the loss with respect to each parameter,
      for the parameter values, the input and the labels of the forward
      pass that [loss.backward()] goes back through *)
  autograd : list Tensor -> Tensor -> list Z -> fw_exn + list Tensor;
  (** the error of [view] when the size [-1] cannot be inferred *)
  view_error : fw_exn;
  (** [datasets.MNIST(..., download=True, train=True, ...)] *)
  load_MNIST : fw_exn + list Sample;
  (** the order in which the shuffling sampler visits the data set in
      the [e]-th pass *)
  shuffle : nat -> list Sample -> list Sample;
  (** [images.resize_(64, 784)] *)
  resize_64_784 : Tensor -> Tensor
}.

(** A parameter of the model: [p.data] and [p.grad]. *)
Record Param : Type := mkParam { value : Tensor; grad : option Tensor }.

(** The framework calls a cell makes, in the order it makes them. *)
Inductive Event : Type :=
| EvLoad | EvView | EvResize | EvZeroGrad | EvForward | EvLoss
| EvBackward | EvStep | EvItem | EvPrint.

(** The parameters (shared by the model and the optimizer built from
    [model.parameters()]), the calls made so far, and what was printed. *)
Record State : Type := mkState {
  params : list Param;
  trace : list Event;
  stdout : list R
}.

(** What a cell can end with instead of a value: an exception of the
    framework, one of the interpreter's built-in exceptions, or one
    raised by a [raise] statement of the notebook. *)
Inductive Exn (E : Type) : Type :=
| FrameworkExn (e : E)
| BuiltinExn (name : string)
| UserExn (name : string).

Arguments FrameworkExn {E} e.
Arguments BuiltinExn {E} name.
Arguments UserExn {E} name.

(** Statements: they change the state and return a value or raise; what
    was done before a raise stays done. *)
Definition M (E A : Type) : Type := State -> State * (Exn E + A).

Definition ret {E A : Type} (a : A) : M E A := fun s => (s, inr a).

Definition bind {E A B : Type} (m : M E A) (k : A -> M E B) : M E B :=
  fun s =>
    match m s with
    | (s', inr a) => k a s'
    | (s', inl x) => (s', inl x)
    end.

Definition raise {E A : Type} (x : Exn E) : M E A := fun s => (s, inl x).

Notation "x <- m ;; k" := (bind m (fun x => k))
  (at level 61, m at next level, right associativity).
Notation "m ;;; k" := (bind m (fun _ => k))
  (at level 61, right associativity).

Definition log {E : Type} (ev : Event) : M E unit :=
  fun s => (mkState (params s) (trace s ++ [ev]) (stdout s), inr tt).

(** A framework call: logged, then its value or its exception. *)
Definition call {E A : Type} (ev : Event) (r : E + A) : M E A :=
  log ev ;;;
  match r with
  | inr a => ret a
  | inl e => raise (FrameworkExn e)
  end.

(** [for x in l: acc = body(x, acc)] *)
Fixpoint for_fold {E A B : Type} (l : list A) (acc : B) (body : A -> B -> M E B)
  : M E B :=
  match l with
  | [] => ret acc
  | x :: l' => acc' <- body x acc ;; for_fold l' acc' body
  end.

(** [for x in l: body(x)] *)
Definition for_each {E A : Type} (l : list A) (body : A -> M E unit) : M E unit :=
  for_fold l tt (fun x _ => body x).

(** [a / n] with an integer divisor. *)
Definition py_div {E : Type} (a : R) (n : nat) : M E R :=
  if (n =? 0)%nat then raise (BuiltinExn "ZeroDivisionError")
  else ret (a / INR n).

(** [optim.SGD(model.parameters(), lr=...)]: the optimizer works on the
    parameters of the state; only its learning rate is its own. *)
Record Optimizer : Type := SGD { lr : R }.

(** Modelled from the spec: the optimizer is the framework's
    [optim.SGD], whose code is not in the repository; its update is the
    specification's gradient-descent update [w <- w - alpha * grad w],
    entry by entry. *)
Definition sgd_update (alpha : R) (w g : Tensor) : Tensor :=
  mkTensor (shape w) (zip_with (fun wi gi => wi - alpha * gi) (data w) (data g)).

(** A parameter without a gradient is left alone. *)
Definition sgd_param (alpha : R) (p : Param) : Param :=
  match grad p with
  | Some g => mkParam (sgd_update alpha (value p) g) (Some g)
  | None => p
  end.

(** [loss.backward()] adds the new gradient to the one the parameter
    holds (the notebook: "the gradients are accumulated"). *)
Definition accumulate (p : Param) (g : Tensor) : Param :=
  mkParam (value p)
          (Some (match grad p with Some g0 => add g0 g | None => g end)).

Fixpoint accumulate_all (ps : list Param) (gs : list Tensor) : list Param :=
  match ps, gs with
  | p :: ps', g :: gs' => accumulate p g :: accumulate_all ps' gs'
  | _, _ => ps
  end.

Section Notebook.

Variable F : Framework.

Local Abbreviation Stmt := (M (fw_exn F)).

(** [model = nn.Sequential(...)]: new parameters, no gradient yet. *)
Definition new_model (init : list Tensor) : Stmt unit :=
  fun s => (mkState (map (fun w => mkParam w None) init) (trace s) (stdout s), inr tt).

(** [optimizer.zero_grad()] *)
Definition zero_grad (optimizer : Optimizer) : Stmt unit :=
  log EvZeroGrad ;;;
  fun s =>
    (mkState (map (fun p => mkParam (value p) (option_map (tmap (fun _ => 0)) (grad p)))
                  (params s))
             (trace s) (stdout s), inr tt).

(** [optimizer.step()] *)
Definition step (optimizer : Optimizer) : Stmt unit :=
  log EvStep ;;;
  fun s =>
    (mkState (map (sgd_param (lr optimizer)) (params s)) (trace s) (stdout s), inr tt).

(** [images.view(images.shape[0], -1)] *)
Definition flatten (t : Tensor) : Stmt Tensor :=
  match shape t with
  | [] => raise (BuiltinExn "IndexError")
  | _ :: _ =>
      call EvView
        (match view_flat t with
         | Some t' => inr t'
         | None => inl (view_error F)
         end)
  end.

(** [model(images)] *)
Definition forward (x : Tensor) : Stmt Tensor :=
  fun s => call EvForward (model_forward F (map value (params s)) x) s.

(** [criterion(output, labels)] *)
Definition loss_of (output : Tensor) (lbls : list Z) : Stmt R :=
  call EvLoss (criterion F output lbls).

(** [loss.backward()] *)
Definition backward (x : Tensor) (lbls : list Z) : Stmt unit :=
  fun s =>
    (gs <- call EvBackward (autograd F (map value (params s)) x lbls) ;;
     fun s' =>
       (mkState (accumulate_all (params s') gs) (trace s') (stdout s'), inr tt)) s.

(** [loss.item()] *)
Definition item (loss : R) : Stmt R := log EvItem ;;; ret loss.

(** [print(f"Training loss: {v}")] *)
Definition print (v : R) : Stmt unit :=
  log EvPrint ;;;
  fun s => (mkState (params s) (trace s) (stdout s ++ [v]), inr tt).

(** The cells of the single training step:
[[
optimizer = optim.SGD(model.parameters(), lr=0.01)
images, labels = next(iter(trainloader))
images.resize_(64, 784)
optimizer.zero_grad()
output = model(images)
loss = criterion(output, labels)
loss.backward()
optimizer.step()
]]
    The [print] calls between them show [model[0].weight] and its
    gradient and change nothing; they are left out. *)
Definition demo_optimizer : Optimizer := SGD 0.01.

Definition single_step (b : Batch) : Stmt unit :=
  let optimizer := demo_optimizer in
  imgs <- (log EvResize ;;; ret (resize_64_784 F (images b))) ;;
  zero_grad optimizer ;;;
  output <- forward imgs ;;
  loss <- loss_of output (labels b) ;;
  backward imgs (labels b) ;;;
  step optimizer.

(** The body of the inner loop of the training cell:
[[
images = images.view(images.shape[0], -1)
optimizer.zero_grad()
output = model(images)
loss = criterion(output, labels)
loss.backward()
optimizer.step()
running_loss += loss.item()
]] *)
Definition training_pass (optimizer : Optimizer) (b : Batch) (running_loss : R)
  : Stmt R :=
  imgs <- flatten (images b) ;;
  zero_grad optimizer ;;;
  output <- forward imgs ;;
  loss <- loss_of output (labels b) ;;
  backward imgs (labels b) ;;;
  step optimizer ;;;
  l <- item loss ;;
  ret (running_loss + l).

(** One epoch:
[[
running_loss = 0
for images, labels in trainloader:
    ...
else:
    print(f"Training loss: {running_loss/len(trainloader)}")
]] *)
Definition epoch (optimizer : Optimizer) (trainloader : Loader) (e : nat)
  : Stmt unit :=
  running_loss <- for_fold (batches (shuffle F e) trainloader) 0
                           (training_pass optimizer) ;;
  avg <- py_div running_loss (len trainloader) ;;
  print avg.

Definition training_optimizer : Optimizer := SGD 0.003.

Definition epochs : nat := 5.

(** The training cell: a new model, its optimizer, five epochs. *)
Definition training_cell (init : list Tensor) (trainloader : Loader) : Stmt unit :=
  new_model init ;;;
  let optimizer := training_optimizer in
  for_each (seq 0 epochs) (epoch optimizer trainloader).

(** The first cell followed by the training cell:
[[
trainset = datasets.MNIST('~/.pytorch/MNIST_data/', download=True, train=True, transform=transform)
trainloader = torch.utils.data.DataLoader(trainset, batch_size=64, shuffle=True)
]] *)
Definition notebook (init : list Tensor) : Stmt unit :=
  trainset <- call EvLoad (load_MNIST F) ;;
  let trainloader := mkLoader trainset 64 in
  training_cell init trainloader.

End Notebook.

(** The five operations of a training iteration, in the order the
    notebook gives them. *)
Definition iteration_order : list Event :=
  [EvZeroGrad; EvForward; EvLoss; EvBackward; EvStep].

Definition is_training_op (ev : Event) : bool :=
  match ev with
  | EvZeroGrad | EvForward | EvLoss | EvBackward | EvStep => true
  | _ => false
  end.

(** All the framework calls of one pass of the inner loop. *)
Definition pass_events : list Event :=
  [EvView; EvZeroGrad; EvForward; EvLoss; EvBackward; EvStep; EvItem].

(** [p] is an initial segment of [l]. *)
Definition prefix_of {A : Type} (p l : list A) : Prop := exists q, l = p ++ q.

(** Running [m] from [s] adds the calls [evs] to the trace. *)
Definition new_events {E A : Type} (m : M E A) (s : State) (evs : list Event) : Prop :=
  trace (fst (m s)) = trace s ++ evs.

(** Running [m] from [s] ends with a value. *)
Definition completes {E A : Type} (m : M E A) (s : State) : Prop :=
  exists a, snd (m s) = inr a.

(** Running [m] from [s] ends with the exception [x]. *)
Definition raises {E A : Type} (m : M E A) (s : State) (x : Exn E) : Prop :=
  snd (m s) = inl x.

(** Whatever [m] raises satisfies [P]. *)
Definition only_raises {E A : Type} (P : Exn E -> Prop) (m : M E A) : Prop :=
  forall s s' x, m s = (s', inl x) -> P x.

(** Exceptions that no [raise] statement of the notebook made: those of
    the framework, and the two the interpreter itself can raise in the
    cells (indexing the shape of a zero-dimensional tensor, dividing by
    [len(trainloader)] when it is zero). *)
Definition not_notebooks_own {E : Type} (x : Exn E) : Prop :=
  match x with
  | FrameworkExn _ => True
  | BuiltinExn name => name = "ZeroDivisionError"%string \/ name = "IndexError"%string
  | UserExn _ => False
  end.

(** The first framework call of a pass over [b] from [s] that fails,
    fails with [e]: the [view], the forward pass, the loss or the
    backward pass, in this order. *)
Definition pass_failure (F : Framework) (b : Batch) (s : State) (e : fw_exn F) : Prop :=
  shape (images b) <> [] /\
  match view_flat (images b) with
  | None => e = view_error F
  | Some x =>
      let ws := map value (params s) in
      match model_forward F ws x with
      | inl e' => e = e'
      | inr out =>
          match criterion F out (labels b) with
          | inl e' => e = e'
          | inr _ => autograd F ws x (labels b) = inl e
          end
      end
  end.

(** A framework for concrete runs: the model wants rows of an even
    number of entries and gives one score per row, the loss is 0, every
    gradient is 1; the data set cannot be found. *)
Definition small_framework : Framework :=
  mkFramework string
    (fun _ x => match shape x with
                | [n; k] => if Nat.even k then inr (full [n; 1%nat] 0)
                            else inl "size mismatch"%string
                | _ => inl "size mismatch"%string
                end)
    (fun _ _ => inr 0)
    (fun ws _ _ => inr (map (tmap (fun _ => 1)) ws))
    "shape is invalid for input"%string
    (inl "Dataset not found"%string)
    (fun _ l => l)
    (fun t => mkTensor [64; 784]%nat (data t)).

(** Two samples of one pixel pair each, and a sample that does not fit
    the model. *)
Definition small_batch : Batch :=
  mkBatch (mkTensor [2; 1; 1; 2]%nat [0; 0; 0; 0]) [0%Z; 1%Z].

Definition odd_batch : Batch :=
  mkBatch (mkTensor [1; 1; 1; 3]%nat [0; 0; 0]) [0%Z].

(** A loader whose second batch does not fit the model. *)
Definition small_loader : Loader :=
  mkLoader [ (mkTensor [1; 1; 2]%nat [0; 0], 0%Z);
             (mkTensor [1; 1; 3]%nat [0; 0; 0], 1%Z) ] 1.

(** A loader all of whose batches fit the model. *)
Definition fitting_loader : Loader :=
  mkLoader [ (mkTensor [1; 1; 2]%nat [0; 0], 0%Z);
             (mkTensor [1; 1; 2]%nat [1; 1], 1%Z) ] 1.

Definition small_state : State :=
  mkState [mkParam (mkTensor [2; 1]%nat [1; 2]) (Some (mkTensor [2; 1]%nat [3; 4]))] [] [].

(** ** Part 2: the network built by hand *)

Definition dot (u v : list R) : R := Rsum (zip_with Rmult u v).

(** Column [j] of a row-major matrix of [k] rows of [n] entries. *)
Definition column (k n j : nat) (l : list R) : list R :=
  map (fun r => nth j r 0) (rows k n l).

(** [torch.mm(a, b)]: the matrix product; the framework refuses
    operands that are not two-dimensional or whose inner sizes differ. *)
Definition mm (a b : Tensor) : option Tensor :=
  match shape a, shape b with
  | [m; k], [k'; n] =>
      if (k =? k')%nat
      then Some (mkTensor [m; n]
                   (concat (map (fun r => map (fun j => dot r (column k n j (data b)))
                                              (seq 0 n))
                                (rows m k (data a)))))
      else None
  | _, _ => None
  end.

(** [t + b] for a two-dimensional [t] and a one-dimensional [b], with
    the framework's broadcasting: sizes agree, or one of them is 1.
    Other ranks are not used by the notebooks and give [None]. *)
Definition add_bias (t b : Tensor) : option Tensor :=
  match shape t, shape b with
  | [m; n], [n'] =>
      if (n =? n')%nat
      then Some (mkTensor [m; n]
                   (concat (map (fun r => zip_with Rplus r (data b)) (rows m n (data t)))))
      else if (n' =? 1)%nat
      then Some (mkTensor [m; n] (map (fun v => v + nth 0 (data b) 0) (data t)))
      else if (n =? 1)%nat
      then Some (mkTensor [m; n']
                   (concat (map (fun r => map (fun v => nth 0 r 0 + v) (data b))
                                (rows m 1 (data t)))))
      else None
  | _, _ => None
  end.

(** [torch.randn(sh)], given the numbers [draw 0], [draw 1], ... that
    the generator hands out from position [from] on. *)
Definition randn (draw : nat -> R) (from : nat) (sh : list nat) : Tensor :=
  mkTensor sh (map draw (seq from (numel_of sh))).

(** The hidden layer of the cell
[[
inputs = images.view(images.shape[0], -1)
m, k = inputs.shape
w1 = torch.randn((k, 256))
b1 = torch.zeros(256)
w2 = torch.randn((256, 10))
b2 = torch.zeros(10)
layer1 = sigmoid(torch.mm(inputs, w1) + b1)
out = torch.mm(layer1, w2) + b2
]] *)
Definition manual_hidden (draw : nat -> R) (imgs : Tensor) : option Tensor :=
  match view_flat imgs with
  | None => None
  | Some inputs =>
      match shape inputs with
      | [m; k] =>
          let w1 := randn draw 0 [k; 256]%nat in
          let b1 := full [256%nat] 0 in
          match mm inputs w1 with
          | None => None
          | Some h => option_map sigmoid (add_bias h b1)
          end
      | _ => None
      end
  end.

(** [out] of the same cell. *)
Definition manual_network (draw : nat -> R) (imgs : Tensor) : option Tensor :=
  match view_flat imgs with
  | None => None
  | Some inputs =>
      match shape inputs with
      | [m; k] =>
          match manual_hidden draw imgs with
          | None => None
          | Some layer1 =>
              let w2 := randn draw (k * 256) [256; 10]%nat in
              let b2 := full [10%nat] 0 in
              match mm layer1 w2 with
              | None => None
              | Some o => add_bias o b2
              end
          end
      | _ => None
      end
  end.

(** ** Part 3: the autograd cells *)

(** [y = x**2] *)
Definition pow2 (x : Tensor) : Tensor := tmap (fun v => v ^ 2) x.

(** [z = y.mean()], for a tensor with at least one entry. *)
Definition mean (y : Tensor) : R := Torch.sum y / INR (length (data y)).

(** [x] with its entry at position [i] replaced by [t]. *)
Definition with_entry (x : Tensor) (i : nat) (t : R) : Tensor :=
  mkTensor (shape x) (firstn i (data x) ++ t :: skipn (S i) (data x)).

(** ** Part 3: log-probabilities *)

(** One row of [nn.LogSoftmax(dim=1)]: every score minus the logarithm
    of the sum of the exponentials of the row. *)
Definition log_softmax_row (r : list R) : list R :=
  map (fun v => v - ln (Rsum (map Rtrigo_def.exp r))) r.

(** [nn.LogSoftmax(dim=1)] on a two-dimensional tensor.  Other ranks
    are not used by the notebooks and give [None]. *)
Definition log_softmax (x : Tensor) : option Tensor :=
  match shape x with
  | [m; n] => Some (mkTensor [m; n] (concat (map log_softmax_row (rows m n (data x)))))
  | _ => None
  end.

(** [nn.CrossEntropyLoss()], as the notebook quotes its documentation:
    "This criterion combines [nn.LogSoftmax()] and [nn.NLLLoss()] in one
    single class."  [nll] stands for [nn.NLLLoss()]. *)
Definition CrossEntropyLoss {A : Type} (nll : Tensor -> list Z -> A)
           (x : Tensor) (lbls : list Z) : option A :=
  option_map (fun logps => nll logps lbls) (log_softmax x).

(** ** Part 3: the losses of an epoch *)

(** The loss of a pass over [b] started in [s]: what
    [criterion(model(images.view(images.shape[0], -1)), labels)] returns
    for the parameters of [s], when the three calls succeed. *)
Definition loss_in_pass (F : Framework) (b : Batch) (s : State) : option R :=
  match view_flat (images b) with
  | None => None
  | Some x =>
      match model_forward F (map value (params s)) x with
      | inl _ => None
      | inr out =>
          match criterion F out (labels b) with
          | inl _ => None
          | inr loss => Some loss
          end
      end
  end.

(** The losses of the passes of a loop over [bs] started in [s], one
    after the other, each pass starting where the one before ended; the
    list stops at the first pass that raises. *)
Fixpoint pass_losses (F : Framework) (optimizer : Optimizer)
         (bs : list Batch) (s : State) : list R :=
  match bs with
  | [] => []
  | b :: bs' =>
      match loss_in_pass F b s, training_pass F optimizer b 0 s with
      | Some loss, (s1, inr _) => loss :: pass_losses F optimizer bs' s1
      | _, _ => []
      end
  end.

(** [small_framework] with a loss that differs from batch to batch: the
    first label of the batch. *)
Definition label_loss_framework : Framework :=
  mkFramework string
    (model_forward small_framework)
    (fun _ lbls => inr (IZR (hd 0%Z lbls)))
    (autograd small_framework)
    (view_error small_framework)
    (load_MNIST small_framework)
    (shuffle small_framework)
    (resize_64_784 small_framework).

(** Closes a goal on the trace of a run once the run is evaluated. *)
Ltac trace_done :=
  simpl; rewrite <- ?app_assoc; simpl;
  first [ reflexivity | eexists; reflexivity ].

(** * Properties *)

(** ** Sums and rows of real lists *)

Section RealLists.

Lemma Rsum_app (a b : list R) : Rsum (a ++ b) = Rsum a + Rsum b.
Proof.
  induction a as [|v a IH]; simpl.
  - lra.
  - rewrite IH. lra.
Qed.

Lemma Rsum_split (n : nat) (l : list R) :
  Rsum l = Rsum (firstn n l) + Rsum (skipn n l).
Proof.
  rewrite <- Rsum_app. now rewrite firstn_skipn.
Qed.

Lemma Rsum_scale (d : R) (l : list R) :
  Rsum (map (fun v => v / d) l) = Rsum l / d.
Proof.
  induction l as [|v l IH]; simpl.
  - unfold Rdiv. now rewrite Rmult_0_l.
  - rewrite IH. unfold Rdiv. ring.
Qed.

Lemma Rsum_repeat (c : R) (n : nat) : Rsum (repeat c n) = INR n * c.
Proof.
  induction n as [|n IH].
  - simpl. ring.
  - rewrite S_INR. simpl. rewrite IH. ring.
Qed.

Lemma Rsum_nonneg (l : list R) : Forall (fun v => 0 <= v) l -> 0 <= Rsum l.
Proof.
  induction 1 as [|v l Hv _ IH]; simpl; lra.
Qed.

Lemma exp_list_pos (l : list R) :
  Forall (fun v => 0 < v) (map Rtrigo_def.exp l).
Proof.
  induction l as [|v l IH]; simpl; constructor; auto using exp_pos.
Qed.

Lemma Forall_pos_nonneg (l : list R) :
  Forall (fun v => 0 < v) l -> Forall (fun v => 0 <= v) l.
Proof.
  apply Forall_impl. intros v Hv. lra.
Qed.

Lemma rows_map (f : R -> R) (m n : nat) (l : list R) :
  rows m n (map f l) = map (map f) (rows m n l).
Proof.
  revert l. induction m as [|m IH]; intros l; simpl.
  - reflexivity.
  - now rewrite firstn_map, skipn_map, IH.
Qed.

Lemma rows_repeat (c : R) (m n : nat) :
  rows m n (repeat c (m * n)) = repeat (repeat c n) m.
Proof.
  induction m as [|m IH]; simpl.
  - reflexivity.
  - rewrite repeat_app, firstn_app, skipn_app, repeat_length.
    rewrite Nat.sub_diag, firstn_all2, skipn_all2 by (rewrite repeat_length; lia).
    simpl. rewrite app_nil_r. now rewrite IH.
Qed.

(** A row of a list of non-negative numbers never sums to more than the
    whole list. *)
Lemma rows_sum_le (m n : nat) (l : list R) :
  Forall (fun v => 0 <= v) l ->
  Forall (fun r => Rsum r <= Rsum l) (rows m n l).
Proof.
  revert l. induction m as [|m IH]; intros l Hl; simpl.
  - constructor.
  - assert (Hf : Forall (fun v => 0 <= v) (firstn n l)).
    { rewrite <- (firstn_skipn n l) in Hl. now apply Forall_app in Hl. }
    assert (Hs : Forall (fun v => 0 <= v) (skipn n l)).
    { rewrite <- (firstn_skipn n l) in Hl. now apply Forall_app in Hl. }
    pose proof (Rsum_split n l) as Hsplit.
    pose proof (Rsum_nonneg _ Hf) as H1.
    pose proof (Rsum_nonneg _ Hs) as H2.
    constructor.
    + lra.
    + eapply Forall_impl; [|apply (IH _ Hs)].
      intros r Hr. simpl in Hr. lra.
Qed.

End RealLists.

(** ** Part 2: sigmoid *)

Lemma logistic_bounds (t : R) : 0 < logistic t < 1.
Proof.
  unfold logistic. pose proof (exp_pos (- t)) as He.
  split.
  - apply Rdiv_lt_0_compat; lra.
  - apply (Rmult_lt_reg_r (1 + Rtrigo_def.exp (- t))); [lra|].
    unfold Rdiv. rewrite Rmult_assoc, Rinv_l by lra. lra.
Qed.

Lemma sigmoid_data (x : Tensor) : data (sigmoid x) = map logistic (data x).
Proof.
  unfold sigmoid, rdiv, radd, Torch.exp, neg, tmap; simpl.
  now rewrite !map_map.
Qed.

(** C5: the notebook's [sigmoid], built from the tensor operations
    negate, exponential, add one and reciprocal, is the logistic function
    [1 / (1 + e^{-x})] applied to every entry, the shape unchanged. *)
Theorem sigmoid_is_elementwise_logistic (x : Tensor) :
  sigmoid x = mkTensor (shape x) (map logistic (data x)).
Proof.
  unfold sigmoid, rdiv, radd, Torch.exp, neg, tmap; simpl.
  now rewrite !map_map.
Qed.

(** ** Part 2: softmax *)

Lemma softmax_data (x : Tensor) :
  data (softmax x) =
  map (fun v => v / (Rsum (map Rtrigo_def.exp (data x)) + 1e-8))
      (map Rtrigo_def.exp (data x)).
Proof. reflexivity. Qed.

Lemma exp_sum_nonneg (l : list R) : 0 <= Rsum (map Rtrigo_def.exp l).
Proof.
  apply Rsum_nonneg, Forall_pos_nonneg, exp_list_pos.
Qed.

Lemma below_one (s e : R) : 0 <= s -> 0 < e -> s / (s + e) < 1.
Proof.
  intros Hs He.
  apply (Rmult_lt_reg_r (s + e)); [lra|].
  unfold Rdiv. rewrite Rmult_assoc, Rinv_l by lra. lra.
Qed.

(** Each row of the output sums to its own share of the sum over the
    whole tensor, and that is below one. *)
Lemma softmax_rows_below_one (x : Tensor) :
  Forall (fun r => Rsum r < 1) (rows_of (softmax x)).
Proof.
  unfold rows_of. simpl shape.
  destruct (shape x) as [|m [|n [|? ?]]]; try constructor.
  rewrite softmax_data, rows_map.
  set (S := Rsum (map Rtrigo_def.exp (data x))).
  pose proof (exp_sum_nonneg (data x)) as HS. fold S in HS.
  apply Forall_forall. intros r Hr.
  apply in_map_iff in Hr. destruct Hr as [r0 [<- Hr0]].
  rewrite Rsum_scale.
  pose proof (rows_sum_le m n _ (Forall_pos_nonneg _ (exp_list_pos (data x)))) as Hle.
  rewrite Forall_forall in Hle. specialize (Hle _ Hr0). fold S in Hle.
  assert (Hlt : S / (S + 1e-8) < 1) by (apply below_one; lra).
  apply (Rmult_lt_reg_r (S + 1e-8)); [lra|].
  unfold Rdiv. rewrite Rmult_assoc, Rinv_l by lra. lra.
Qed.

Lemma softmax_zeros_data (sh : list nat) :
  data (softmax (full sh 0)) =
  repeat (1 / (INR (numel_of sh) + 1e-8)) (numel_of sh).
Proof.
  rewrite softmax_data. simpl data.
  rewrite !map_repeat, Rsum_repeat, exp_0.
  now rewrite Rmult_1_r.
Qed.

(** C1: on the 64x10 tensor of zeros the rows of [softmax] do not sum to
    1: [probabilities.sum(dim=1)] is 64 times [10 / (640 + 1e-8)], since
    the divisor is the sum over all 640 entries. *)
Theorem softmax_rows_of_zeros_64_10 :
  sum_dim1 (softmax (full [64; 10]%nat 0)) =
    Some (mkTensor [64%nat] (repeat (10 / (640 + 1e-8)) 64)) /\
  10 / (640 + 1e-8) <> 1.
Proof.
  split.
  - unfold sum_dim1. simpl shape. rewrite softmax_zeros_data.
    change (numel_of [64; 10]%nat) with (64 * 10)%nat.
    rewrite rows_repeat, map_repeat, Rsum_repeat.
    replace (INR (64 * 10)) with 640 by (rewrite INR_IZR_INZ; reflexivity).
    replace (INR 10) with 10 by (rewrite INR_IZR_INZ; reflexivity).
    do 2 f_equal. f_equal. unfold Rdiv. ring.
  - intros H.
    assert (Hlt : 10 / (640 + 1e-8) < 1).
    { apply (Rmult_lt_reg_r (640 + 1e-8)); [lra|].
      unfold Rdiv. rewrite Rmult_assoc, Rinv_l by lra. lra. }
    lra.
Qed.

(** C2: on the 64x10 tensor of zeros the entry [(0, 0)] of [softmax] is
    not the text-book softmax of its sample: the notebook gives
    [1 / (640 + 1e-8)], dividing by the sum over all 640 entries, where
    the text book gives [1 / 10], dividing by the sum over the 10 scores
    of the sample. *)
Theorem softmax_entry_of_zeros_64_10 :
  get2 (softmax (full [64; 10]%nat 0)) 0 0 = 1 / (640 + 1e-8) /\
  standard_softmax_entry (full [64; 10]%nat 0) 0 0 = 1 / 10 /\
  1 / (640 + 1e-8) < 1 / 10.
Proof.
  split; [|split].
  - unfold get2. change (shape (softmax (full [64; 10]%nat 0))) with [64; 10]%nat.
    rewrite softmax_zeros_data.
    replace (INR (numel_of [64; 10]%nat)) with 640
      by (rewrite INR_IZR_INZ; reflexivity).
    change (numel_of [64; 10]%nat) with (S 639).
    reflexivity.
  - unfold standard_softmax_entry, get2, rows_of, full. cbn [shape data].
    change (numel_of [64; 10]%nat) with (64 * 10)%nat.
    rewrite rows_repeat.
    change (nth (0 * 10 + 0) (repeat 0 (64 * 10)) 0) with 0.
    change (nth 0 (repeat (repeat 0 10) 64) []) with (repeat 0 10).
    rewrite map_repeat, Rsum_repeat, exp_0.
    replace (INR 10) with 10 by (rewrite INR_IZR_INZ; reflexivity).
    unfold Rdiv. now rewrite !Rmult_1_r.
  - unfold Rdiv. rewrite !Rmult_1_l. apply Rinv_lt_contravar; lra.
Qed.

(** ** Part 3: the batches of the loader *)

Section BatchSampler.

Context {A : Type}.
Variable bsz : nat.

Lemma batch_sampler_concat (sampler batch : list A) :
  concat (batch_sampler bsz batch sampler) = batch ++ sampler.
Proof.
  revert batch. induction sampler as [|idx rest IH]; intros batch; simpl.
  - destruct (0 <? length batch)%nat eqn:E; simpl.
    + reflexivity.
    + apply Nat.ltb_ge in E. destruct batch; [reflexivity | simpl in E; lia].
  - destruct (length (batch ++ [idx]) =? bsz)%nat; simpl.
    + rewrite IH. simpl. now rewrite <- app_assoc.
    + rewrite IH. now rewrite <- app_assoc.
Qed.

Lemma batch_sampler_covers (sampler : list A) :
  concat (batch_sampler bsz [] sampler) = sampler.
Proof. apply batch_sampler_concat. Qed.

Lemma batch_sampler_sizes (sampler batch : list A) :
  (length batch < bsz)%nat ->
  Forall (fun c => (1 <= length c <= bsz)%nat) (batch_sampler bsz batch sampler).
Proof.
  revert batch. induction sampler as [|idx rest IH]; intros batch Hb; simpl.
  - destruct (0 <? length batch)%nat eqn:E.
    + apply Nat.ltb_lt in E. constructor; [lia | constructor].
    + constructor.
  - destruct (length (batch ++ [idx]) =? bsz)%nat eqn:E.
    + apply Nat.eqb_eq in E. constructor.
      * rewrite E. rewrite length_app in E. simpl in E. lia.
      * apply IH. simpl. lia.
    + apply Nat.eqb_neq in E. apply IH.
      rewrite length_app in *. simpl in *. lia.
Qed.

(** Every batch but the last one is full. *)
Lemma batch_sampler_full (sampler batch c : list A) (pre : list (list A)) :
  batch_sampler bsz batch sampler = pre ++ [c] ->
  Forall (fun c' => length c' = bsz) pre.
Proof.
  revert batch pre. induction sampler as [|idx rest IH]; intros batch pre; simpl.
  - destruct (0 <? length batch)%nat; intros H.
    + destruct pre as [|p pre]; [constructor|].
      simpl in H. injection H as _ H. now destruct pre.
    + now destruct pre.
  - destruct (length (batch ++ [idx]) =? bsz)%nat eqn:E; intros H.
    + apply Nat.eqb_eq in E.
      destruct pre as [|p pre]; [constructor|].
      simpl in H. injection H as <- H.
      constructor; [exact E | eapply IH; exact H].
    + eapply IH; exact H.
Qed.

End BatchSampler.

Lemma concat_length_uniform {A : Type} (k : nat) (l : list (list A)) :
  Forall (fun c => length c = k) l -> length (concat l) = (k * length l)%nat.
Proof.
  induction 1 as [|c l Hc _ IH]; simpl.
  - lia.
  - rewrite length_app, IH, Hc. lia.
Qed.

Lemma concat_by_chunks {A B : Type} (f : A -> list B) (chunks : list (list A)) :
  concat (map (fun c => concat (map f c)) chunks) = concat (map f (concat chunks)).
Proof.
  induction chunks as [|c chunks IH]; simpl.
  - reflexivity.
  - now rewrite IH, map_app, concat_app.
Qed.

(** The size of the last batch of a pass over [n] samples. *)
Lemma last_batch_size (n q r : nat) :
  n = (64 * q + r)%nat -> (1 <= r <= 64)%nat ->
  r = if (n mod 64 =? 0)%nat then 64%nat else (n mod 64)%nat.
Proof.
  intros Hn Hr. destruct (Nat.eq_dec r 64) as [->|Hne].
  - replace n with ((q + 1) * 64)%nat by lia.
    now rewrite Nat.Div0.mod_mul.
  - assert (Hmod : r = (n mod 64)%nat)
      by (apply (Nat.mod_unique n 64 q r); lia).
    rewrite <- Hmod.
    destruct (r =? 0)%nat eqn:E; [apply Nat.eqb_eq in E; lia | reflexivity].
Qed.

Lemma concat_data_length (k : nat) (samples : list Sample) :
  Forall (fun s => length (data (fst s)) = k) samples ->
  length (concat (map (fun s => data (fst s)) samples)) = (length samples * k)%nat.
Proof.
  induction 1 as [|s l Hs _ IH]; simpl.
  - reflexivity.
  - rewrite length_app, IH, Hs. lia.
Qed.

(** The flattened batch has the entries of the batch in the same order:
    entry [(i, (c*28 + h)*28 + w)] is pixel [(c, h, w)] of sample [i]. *)
Lemma view_flat_collate (chunk : list Sample) :
  chunk <> [] ->
  Forall (fun s => shape (fst s) = [1; 28; 28]%nat /\ well_formed (fst s)) chunk ->
  let imgs := images (collate chunk) in
  shape imgs = [length chunk; 1; 28; 28]%nat /\
  exists f, view_flat imgs = Some f /\
            shape f = [length chunk; 784]%nat /\
            data f = data imgs /\
            forall i c h w, get2 f i ((c * 28 + h) * 28 + w) = get4 imgs i c h w.
Proof.
  intros Hne Hall imgs.
  assert (Hshape : shape imgs = [length chunk; 1; 28; 28]%nat).
  { unfold imgs, collate; simpl. destruct chunk as [|s chunk]; [congruence|].
    apply Forall_inv in Hall. destruct Hall as [-> _]. reflexivity. }
  assert (Hlen : length (data imgs) = (784 * length chunk)%nat).
  { unfold imgs, collate. cbn [images data].
    rewrite (concat_data_length 784); [lia|].
    eapply Forall_impl; [|exact Hall]. intros s [Hs Hwf]. cbv beta.
    unfold well_formed in Hwf. rewrite Hwf, Hs. reflexivity. }
  split; [exact Hshape|].
  assert (Hn : length chunk <> 0%nat) by (destruct chunk; simpl; congruence).
  exists (mkTensor [length chunk; 784]%nat (data imgs)).
  split; [|split; [reflexivity | split; [reflexivity|]]].
  - unfold view_flat. rewrite Hshape, Hlen.
    apply Nat.eqb_neq in Hn. rewrite Hn.
    rewrite Nat.Div0.mod_mul, Nat.eqb_refl, Nat.div_mul by (apply Nat.eqb_neq; exact Hn).
    reflexivity.
  - intros i c h w. unfold get2, get4. rewrite Hshape. simpl shape. cbv iota.
    f_equal. lia.
Qed.

Lemma batches_labels_total (order : list Sample -> list Sample) (ld : Loader) :
  Forall (fun b => length (labels b) = 64%nat) (batches order ld) ->
  length (order (dataset ld)) = (64 * length (batches order ld))%nat.
Proof.
  intros H. unfold batches in *. rewrite length_map.
  rewrite <- (batch_sampler_covers (batch_size ld) (order (dataset ld))) at 1.
  apply concat_length_uniform.
  rewrite Forall_map in H. eapply Forall_impl; [|exact H].
  intros c Hc. simpl in Hc. now rewrite length_map in Hc.
Qed.

(** C7, as stated, fails on a training set of 60000 samples: 64 does not
    divide 60000, so the batches of one pass cannot all hold 64. *)
Lemma not_every_batch_has_64 :
  ~ (forall b, In b (batches (fun l => l) (mkLoader blank_mnist 64)) ->
               batch_as_specified b).
Proof.
  intros H.
  assert (Hall : Forall (fun b => length (labels b) = 64%nat)
                        (batches (fun l => l) (mkLoader blank_mnist 64))).
  { apply Forall_forall. intros b Hb. apply H in Hb.
    destruct Hb as (_ & _ & Hl & _). exact Hl. }
  apply batches_labels_total in Hall. simpl dataset in Hall.
  unfold blank_mnist in Hall. rewrite repeat_length in Hall.
  lia.
Qed.

(** C7, amended: in a pass over a training set of 1x28x28 images with
    labels in [0, 9], every batch holds [n] samples with [1 <= n <= 64];
    its images have shape [n x 1 x 28 x 28] and the notebook's [view]
    gives shape [n x 784] with the same entries in the same order, entry
    [(i, (c*28 + h)*28 + w)] being pixel [(c, h, w)] of sample [i]; its
    labels are [n] integers in [0, 9]; every batch but the last of the
    pass has [n = 64]; the last one holds the remainder, [N mod 64]
    samples of the [N] of the training set (64 when 64 divides [N]); and
    no sample is left out: the labels and the pixels of the batches, put
    end to end, are those of the training set in the order of the pass. *)
Theorem batch_shape_flatten_labels
  (order : list Sample -> list Sample) (ds : list Sample) :
  Permutation (order ds) ds ->
  Forall (fun s => shape (fst s) = [1; 28; 28]%nat /\ well_formed (fst s) /\
                   (0 <= snd s <= 9)%Z) ds ->
  let bs := batches order (mkLoader ds 64) in
  Forall (fun b =>
    exists n, (1 <= n <= 64)%nat /\
      shape (images b) = [n; 1; 28; 28]%nat /\
      (exists f, view_flat (images b) = Some f /\
                 shape f = [n; 784]%nat /\
                 data f = data (images b) /\
                 forall i c h w,
                   get2 f i ((c * 28 + h) * 28 + w) = get4 (images b) i c h w) /\
      length (labels b) = n /\
      Forall (fun l => (0 <= l <= 9)%Z) (labels b)) bs /\
  (forall pre b, bs = pre ++ [b] ->
     Forall (fun b' => shape (images b') = [64; 1; 28; 28]%nat /\
                       length (labels b') = 64%nat) pre /\
     let n := if (length ds mod 64 =? 0)%nat then 64%nat else (length ds mod 64)%nat in
     shape (images b) = [n; 1; 28; 28]%nat /\ length (labels b) = n) /\
  concat (map labels bs) = map snd (order ds) /\
  concat (map (fun b => data (images b)) bs) =
    concat (map (fun s => data (fst s)) (order ds)).
Proof.
  intros Hperm Hds bs.
  assert (Hord : Forall (fun s => shape (fst s) = [1; 28; 28]%nat /\
                   well_formed (fst s) /\ (0 <= snd s <= 9)%Z) (order ds)).
  { apply Forall_forall. intros s Hs. rewrite Forall_forall in Hds.
    apply Hds. eapply Permutation_in; eassumption. }
  set (chunks := batch_sampler 64 [] (order ds)).
  assert (Hsz : Forall (fun c => (1 <= length c <= 64)%nat) chunks).
  { apply batch_sampler_sizes. simpl. lia. }
  assert (Hin : Forall (fun c => Forall (fun s => shape (fst s) = [1; 28; 28]%nat /\
                   well_formed (fst s) /\ (0 <= snd s <= 9)%Z) c) chunks).
  { apply Forall_forall. intros c Hc. apply Forall_forall. intros s Hs.
    rewrite Forall_forall in Hord. apply Hord.
    rewrite <- (batch_sampler_covers 64 (order ds)).
    apply in_concat. exists c. split; assumption. }
  assert (Hgood : forall c, (1 <= length c)%nat ->
            Forall (fun s => shape (fst s) = [1; 28; 28]%nat /\
                   well_formed (fst s) /\ (0 <= snd s <= 9)%Z) c ->
            shape (images (collate c)) = [length c; 1; 28; 28]%nat /\
            (exists f, view_flat (images (collate c)) = Some f /\
                 shape f = [length c; 784]%nat /\
                 data f = data (images (collate c)) /\
                 forall i ch h w,
                   get2 f i ((ch * 28 + h) * 28 + w) = get4 (images (collate c)) i ch h w) /\
            length (labels (collate c)) = length c /\
            Forall (fun l => (0 <= l <= 9)%Z) (labels (collate c))).
  { intros c Hlen Hc.
    assert (Hne : c <> []) by (destruct c; simpl in Hlen; [lia | congruence]).
    assert (Hc' : Forall (fun s => shape (fst s) = [1; 28; 28]%nat /\
                                   well_formed (fst s)) c).
    { eapply Forall_impl; [|exact Hc]. intros s (H1 & H2 & _). now split. }
    destruct (view_flat_collate c Hne Hc') as [Hsh Hview].
    split; [exact Hsh|]. split; [exact Hview|].
    split.
    - simpl. apply length_map.
    - simpl. apply Forall_map. eapply Forall_impl; [|exact Hc].
      intros s (_ & _ & H3). exact H3. }
  split; [|split; [|split]].
  - unfold bs, batches. simpl. fold chunks. apply Forall_map.
    apply Forall_forall. intros c Hc.
    rewrite Forall_forall in Hsz, Hin.
    specialize (Hsz c Hc). specialize (Hin c Hc). cbv beta in Hsz.
    exists (length c). split; [exact Hsz|].
    apply Hgood; [lia | exact Hin].
  - intros pre b Hbs. unfold bs, batches in Hbs. simpl in Hbs. fold chunks in Hbs.
    apply map_eq_app in Hbs. destruct Hbs as (cpre & clast & Hch & <- & Hlast).
    destruct clast as [|c [|? ?]]; try discriminate.
    injection Hlast as <-.
    assert (Hfull : Forall (fun c' => length c' = 64%nat) cpre).
    { eapply batch_sampler_full. exact Hch. }
    rewrite Forall_forall in Hin.
    split.
    + apply Forall_map. apply Forall_forall. intros c' Hc'.
      rewrite Forall_forall in Hfull. specialize (Hfull c' Hc').
      assert (Hc'in : In c' chunks) by (rewrite Hch; apply in_or_app; now left).
      destruct (Hgood c' ltac:(lia) (Hin c' Hc'in)) as (Hsh & _ & Hl & _).
      rewrite Hfull in Hsh, Hl. now split.
    + assert (Hcin : In c chunks)
        by (rewrite Hch; apply in_or_app; right; now left).
      assert (Hcsz : (1 <= length c <= 64)%nat).
      { rewrite Forall_forall in Hsz. exact (Hsz c Hcin). }
      assert (Htotal : length ds = (64 * length cpre + length c)%nat).
      { rewrite <- (Permutation_length Hperm).
        rewrite <- (batch_sampler_covers 64 (order ds)) at 1.
        fold chunks. rewrite Hch, concat_app, length_app.
        rewrite (concat_length_uniform 64 cpre Hfull).
        simpl. rewrite app_nil_r. reflexivity. }
      pose proof (last_batch_size _ _ _ Htotal Hcsz) as Hlastsz.
      cbv zeta. rewrite <- Hlastsz.
      destruct (Hgood c ltac:(lia) (Hin c Hcin)) as (Hsh & _ & Hl & _).
      now split.
  - unfold bs, batches. simpl. rewrite map_map. cbn [labels collate].
    rewrite <- (batch_sampler_covers 64 (order ds)) at 2.
    now rewrite concat_map.
  - unfold bs, batches. simpl. rewrite map_map. cbn [images collate data].
    rewrite <- (batch_sampler_covers 64 (order ds)) at 2.
    apply concat_by_chunks.
Qed.

(** The amended C7 on a training set of 60000 blank images: the last
    batch holds 32. *)
Lemma batch_shape_flatten_labels_witness :
  (length blank_mnist mod 64 = 32)%nat /\
  let bs := batches (fun l => l) (mkLoader blank_mnist 64) in
  Forall (fun b =>
    exists n, (1 <= n <= 64)%nat /\
      shape (images b) = [n; 1; 28; 28]%nat /\
      (exists f, view_flat (images b) = Some f /\
                 shape f = [n; 784]%nat /\
                 data f = data (images b) /\
                 forall i c h w,
                   get2 f i ((c * 28 + h) * 28 + w) = get4 (images b) i c h w) /\
      length (labels b) = n /\
      Forall (fun l => (0 <= l <= 9)%Z) (labels b)) bs /\
  (forall pre b, bs = pre ++ [b] ->
     Forall (fun b' => shape (images b') = [64; 1; 28; 28]%nat /\
                       length (labels b') = 64%nat) pre /\
     let n := if (length blank_mnist mod 64 =? 0)%nat
              then 64%nat else (length blank_mnist mod 64)%nat in
     shape (images b) = [n; 1; 28; 28]%nat /\ length (labels b) = n) /\
  concat (map labels bs) = map snd blank_mnist /\
  concat (map (fun b => data (images b)) bs) =
    concat (map (fun s => data (fst s)) blank_mnist).
Proof.
  split.
  - unfold blank_mnist. rewrite repeat_length. vm_compute. reflexivity.
  - apply (batch_shape_flatten_labels (fun l => l) blank_mnist).
    + apply Permutation_refl.
    + apply Forall_forall. intros s Hs. apply repeat_spec in Hs. subst s.
      simpl. split; [reflexivity | split; [apply repeat_length | lia]].
Defined.

(** ** Part 3: statements *)

Section Statements.

Context {E : Type}.

Lemma bind_value {A B : Type} (m : M E A) (k : A -> M E B) (s s' : State) (a : A) :
  m s = (s', inr a) -> bind m k s = k a s'.
Proof. intros H. unfold bind. now rewrite H. Qed.

Lemma bind_raise {A B : Type} (m : M E A) (k : A -> M E B) (s s' : State) (x : Exn E) :
  m s = (s', inl x) -> bind m k s = (s', inl x).
Proof. intros H. unfold bind. now rewrite H. Qed.

(** A loop that meets a raising pass stops there: the exception and the
    state of the raise are those of the loop. *)
Lemma for_fold_raise {A B : Type} (body : A -> B -> M E B)
      (pre : list A) (a : A) (post : list A)
      (acc acc1 : B) (s s1 s2 : State) (x : Exn E) :
  for_fold pre acc body s = (s1, inr acc1) ->
  body a acc1 s1 = (s2, inl x) ->
  for_fold (pre ++ a :: post) acc body s = (s2, inl x).
Proof.
  revert acc s. induction pre as [|p pre IH]; intros acc s Hpre Ha; simpl in *.
  - unfold ret in Hpre. injection Hpre as <- <-.
    now apply bind_raise.
  - unfold bind in *. destruct (body p acc s) as [s' [x'|acc']].
    + discriminate.
    + now apply IH.
Qed.

Lemma only_raises_ret {A : Type} (P : Exn E -> Prop) (a : A) :
  only_raises P (ret a).
Proof. intros s s' x H. discriminate. Qed.

Lemma only_raises_bind {A B : Type} (P : Exn E -> Prop)
      (m : M E A) (k : A -> M E B) :
  only_raises P m -> (forall a, only_raises P (k a)) -> only_raises P (bind m k).
Proof.
  intros Hm Hk s s' x H. unfold bind in H.
  destruct (m s) as [s1 [x1|a]] eqn:Em.
  - injection H as <- <-. eapply Hm; eassumption.
  - eapply Hk; eassumption.
Qed.

Lemma only_raises_log (P : Exn E -> Prop) (ev : Event) :
  only_raises P (log ev).
Proof. intros s s' x H. discriminate. Qed.

Lemma only_raises_call {A : Type} (P : Exn E -> Prop) (ev : Event) (r : E + A) :
  (forall e, P (FrameworkExn e)) -> only_raises P (call ev r).
Proof.
  intros HP. unfold call. apply only_raises_bind; [apply only_raises_log|].
  intros _. destruct r as [e|a].
  - intros s s' x H. injection H as _ <-. apply HP.
  - apply only_raises_ret.
Qed.

Lemma only_raises_for_fold {A B : Type} (P : Exn E -> Prop)
      (body : A -> B -> M E B) (l : list A) (acc : B) :
  (forall a b, only_raises P (body a b)) -> only_raises P (for_fold l acc body).
Proof.
  intros Hbody. revert acc. induction l as [|a l IH]; intros acc; simpl.
  - apply only_raises_ret.
  - apply only_raises_bind; [apply Hbody | intros acc'; apply IH].
Qed.

Lemma only_raises_state {A : Type} (P : Exn E -> Prop) (f : State -> State) (a : A) :
  only_raises P (fun s => (f s, inr a)).
Proof. intros s s' x H. discriminate. Qed.

End Statements.

(** ** Part 3: the optimizer step *)

Lemma zip_with_length (f : R -> R -> R) (a b : list R) :
  length a = length b -> length (zip_with f a b) = length a.
Proof.
  revert b. induction a as [|x a IH]; intros [|y b] H; simpl in *; try lia.
  now rewrite IH by lia.
Qed.

Lemma zip_with_nth (f : R -> R -> R) (a b : list R) (i : nat) :
  length a = length b -> (i < length a)%nat ->
  nth i (zip_with f a b) 0 = f (nth i a 0) (nth i b 0).
Proof.
  revert b i. induction a as [|x a IH]; intros [|y b] i H Hi; simpl in *; try lia.
  destruct i as [|i]; [reflexivity|]. apply IH; lia.
Qed.

Lemma step_updates_parameter (F : Framework) (optimizer : Optimizer)
      (s : State) (k : nat) (w g : Tensor) :
  nth_error (params s) k = Some (mkParam w (Some g)) ->
  length (data g) = length (data w) ->
  exists w',
    nth_error (params (fst (step F optimizer s))) k = Some (mkParam w' (Some g)) /\
    shape w' = shape w /\
    length (data w') = length (data w) /\
    forall i, (i < length (data w))%nat ->
      nth i (data w') 0 = nth i (data w) 0 - lr optimizer * nth i (data g) 0.
Proof.
  intros Hk Hlen.
  exists (sgd_update (lr optimizer) w g). split; [|split; [|split]].
  - unfold step, bind, log. simpl.
    rewrite nth_error_map, Hk. reflexivity.
  - reflexivity.
  - simpl. apply zip_with_length. lia.
  - intros i Hi. simpl. apply zip_with_nth; lia.
Qed.

(** C4: one [optimizer.step()] replaces every parameter [w] that holds a
    gradient [g] by [w - alpha * g], entry by entry, where [alpha] is the
    learning rate the optimizer was built with: 0.01 for the optimizer of
    the single training step, 0.003 for the one of the training loop. *)
Theorem optimizer_step_is_gradient_descent
  (F : Framework) (s : State) (k : nat) (w g : Tensor) :
  nth_error (params s) k = Some (mkParam w (Some g)) ->
  length (data g) = length (data w) ->
  (exists w',
     nth_error (params (fst (step F demo_optimizer s))) k = Some (mkParam w' (Some g)) /\
     shape w' = shape w /\ length (data w') = length (data w) /\
     forall i, (i < length (data w))%nat ->
       nth i (data w') 0 = nth i (data w) 0 - 0.01 * nth i (data g) 0) /\
  (exists w',
     nth_error (params (fst (step F training_optimizer s))) k = Some (mkParam w' (Some g)) /\
     shape w' = shape w /\ length (data w') = length (data w) /\
     forall i, (i < length (data w))%nat ->
       nth i (data w') 0 = nth i (data w) 0 - 0.003 * nth i (data g) 0).
Proof.
  intros Hk Hlen. split.
  - apply (step_updates_parameter F demo_optimizer s k w g Hk Hlen).
  - apply (step_updates_parameter F training_optimizer s k w g Hk Hlen).
Qed.

(** C4 on a parameter [[1, 2]] with gradient [[3, 4]]. *)
Lemma optimizer_step_is_gradient_descent_witness :
  (exists w',
     nth_error (params (fst (step small_framework demo_optimizer small_state))) 0 =
       Some (mkParam w' (Some (mkTensor [2; 1]%nat [3; 4]))) /\
     shape w' = [2; 1]%nat /\ length (data w') = 2%nat /\
     forall i, (i < 2)%nat ->
       nth i (data w') 0 = nth i [1; 2] 0 - 0.01 * nth i [3; 4] 0) /\
  (exists w',
     nth_error (params (fst (step small_framework training_optimizer small_state))) 0 =
       Some (mkParam w' (Some (mkTensor [2; 1]%nat [3; 4]))) /\
     shape w' = [2; 1]%nat /\ length (data w') = 2%nat /\
     forall i, (i < 2)%nat ->
       nth i (data w') 0 = nth i [1; 2] 0 - 0.003 * nth i [3; 4] 0).
Proof.
  apply (optimizer_step_is_gradient_descent small_framework small_state 0
           (mkTensor [2; 1]%nat [1; 2]) (mkTensor [2; 1]%nat [3; 4])).
  - reflexivity.
  - reflexivity.
Defined.

(** ** Part 3: the order of the operations *)

Lemma prefix_of_filter {A : Type} (f : A -> bool) (p l : list A) :
  prefix_of p l -> prefix_of (filter f p) (filter f l).
Proof.
  intros [q ->]. exists (filter f q). apply filter_app.
Qed.

Section PassFacts.

Variable F : Framework.
Variable optimizer : Optimizer.

(** A pass runs its calls in the order of [pass_events] and stops at the
    first one that raises. *)
Lemma training_pass_trace (b : Batch) (rl : R) (s : State) :
  exists evs, new_events (training_pass F optimizer b rl) s evs /\
              prefix_of evs pass_events /\
              (completes (training_pass F optimizer b rl) s -> evs = pass_events).
Proof.
  unfold new_events, completes, prefix_of, pass_events.
  unfold training_pass, flatten, zero_grad, forward, loss_of, backward, step, item,
    call, log, bind, ret, raise.
  destruct (shape (images b)) as [|n sh]; simpl.
  { exists []. split; [now rewrite app_nil_r|]. split; [now eexists|].
    intros [a Ha]. discriminate. }
  destruct (view_flat (images b)) as [x|]; simpl.
  2:{ exists [EvView]. split; [reflexivity|]. split; [now eexists|].
      intros [a Ha]. discriminate. }
  match goal with |- context [model_forward F ?ws ?t] =>
    destruct (model_forward F ws t) as [e|out] end; simpl.
  { exists [EvView; EvZeroGrad; EvForward].
    split; [trace_done|]. split; [now eexists|]. intros [a Ha]. discriminate. }
  destruct (criterion F out (labels b)) as [e|loss]; simpl.
  { exists [EvView; EvZeroGrad; EvForward; EvLoss].
    split; [trace_done|]. split; [now eexists|]. intros [a Ha]. discriminate. }
  match goal with |- context [autograd F ?ws ?t ?l] =>
    destruct (autograd F ws t l) as [e|gs] end; simpl.
  { exists [EvView; EvZeroGrad; EvForward; EvLoss; EvBackward].
    split; [trace_done|]. split; [now eexists|]. intros [a Ha]. discriminate. }
  exists [EvView; EvZeroGrad; EvForward; EvLoss; EvBackward; EvStep; EvItem].
  split; [trace_done|]. split; [exists []; reflexivity | reflexivity].
Qed.

Lemma training_pass_value_trace (b : Batch) (rl v : R) (s s' : State) :
  training_pass F optimizer b rl s = (s', inr v) ->
  trace s' = trace s ++ pass_events.
Proof.
  intros H.
  destruct (training_pass_trace b rl s) as (evs & Hev & _ & Hall).
  unfold new_events in Hev. rewrite H in Hev. simpl in Hev.
  rewrite Hev. f_equal. apply Hall. exists v. now rewrite H.
Qed.

(** A loop that completes has run the calls of one pass after the other,
    once per batch. *)
Lemma for_fold_pass_trace (bs : list Batch) (rl v : R) (s s' : State) :
  for_fold bs rl (training_pass F optimizer) s = (s', inr v) ->
  trace s' = trace s ++ concat (map (fun _ => pass_events) bs).
Proof.
  revert rl s. induction bs as [|b bs IH]; intros rl s H; simpl in H.
  - unfold ret in H. injection H as <- _. simpl. now rewrite app_nil_r.
  - unfold bind in H.
    destruct (training_pass F optimizer b rl s) as [s1 [x|rl1]] eqn:Ep; [discriminate|].
    apply training_pass_value_trace in Ep. apply IH in H.
    rewrite H, Ep. simpl concat. now rewrite <- app_assoc.
Qed.

(** The single training step has the same order. *)
Lemma single_step_trace (b : Batch) (s : State) :
  exists evs, new_events (single_step F b) s evs /\
              prefix_of evs [EvResize; EvZeroGrad; EvForward; EvLoss; EvBackward; EvStep] /\
              (completes (single_step F b) s ->
               evs = [EvResize; EvZeroGrad; EvForward; EvLoss; EvBackward; EvStep]).
Proof.
  unfold new_events, completes, prefix_of.
  unfold single_step, zero_grad, forward, loss_of, backward, step,
    call, log, bind, ret, raise.
  simpl.
  match goal with |- context [model_forward F ?ws ?t] =>
    destruct (model_forward F ws t) as [e|out] end; simpl.
  { exists [EvResize; EvZeroGrad; EvForward].
    split; [trace_done|]. split; [now eexists|]. intros [a Ha]. discriminate. }
  destruct (criterion F out (labels b)) as [e|loss]; simpl.
  { exists [EvResize; EvZeroGrad; EvForward; EvLoss].
    split; [trace_done|]. split; [now eexists|]. intros [a Ha]. discriminate. }
  match goal with |- context [autograd F ?ws ?t ?l] =>
    destruct (autograd F ws t l) as [e|gs] end; simpl.
  { exists [EvResize; EvZeroGrad; EvForward; EvLoss; EvBackward].
    split; [trace_done|]. split; [now eexists|]. intros [a Ha]. discriminate. }
  exists [EvResize; EvZeroGrad; EvForward; EvLoss; EvBackward; EvStep].
  split; [trace_done|]. split; [exists []; reflexivity | reflexivity].
Qed.

End PassFacts.

Lemma filter_concat {A : Type} (f : A -> bool) (l : list (list A)) :
  filter f (concat l) = concat (map (filter f) l).
Proof.
  induction l as [|x l IH]; simpl.
  - reflexivity.
  - now rewrite filter_app, IH.
Qed.

(** A loop whose passes each add their own calls adds them one after the
    other. *)
Lemma for_fold_trace {E A B : Type} (body : A -> B -> M E B) (T : A -> list Event)
      (l : list A) :
  (forall a acc s s' v, body a acc s = (s', inr v) -> trace s' = trace s ++ T a) ->
  forall acc s s' v,
    for_fold l acc body s = (s', inr v) ->
    trace s' = trace s ++ concat (map T l).
Proof.
  intros Hbody. induction l as [|a l IH]; intros acc s s' v H; simpl in H.
  - unfold ret in H. injection H as <- _. simpl. now rewrite app_nil_r.
  - unfold bind in H.
    destruct (body a acc s) as [s1 [x|acc1]] eqn:Ea; [discriminate|].
    apply Hbody in Ea. apply IH in H.
    rewrite H, Ea. simpl concat. now rewrite <- app_assoc.
Qed.

Lemma epoch_trace (F : Framework) (optimizer : Optimizer) (ld : Loader)
      (e : nat) (s s' : State) (v : unit) :
  epoch F optimizer ld e s = (s', inr v) ->
  trace s' = trace s ++
             concat (map (fun _ => pass_events) (batches (shuffle F e) ld)) ++ [EvPrint].
Proof.
  unfold epoch, bind. intros H.
  destruct (for_fold (batches (shuffle F e) ld) 0 (training_pass F optimizer) s)
    as [s1 [x|rl]] eqn:Ef; [discriminate|].
  apply for_fold_pass_trace in Ef.
  unfold py_div in H. destruct (len ld =? 0)%nat; [discriminate|].
  unfold ret, print, bind, log in H. injection H as <- _. simpl.
  rewrite Ef. now rewrite <- app_assoc.
Qed.

Lemma training_cell_trace (F : Framework) (init : list Tensor) (ld : Loader)
      (s s' : State) (v : unit) :
  training_cell F init ld s = (s', inr v) ->
  trace s' = trace s ++
    concat (map (fun e => concat (map (fun _ => pass_events) (batches (shuffle F e) ld))
                          ++ [EvPrint])
                (seq 0 epochs)).
Proof.
  unfold training_cell, bind, new_model. intros H.
  unfold for_each in H.
  apply (for_fold_trace (fun e (_ : unit) => epoch F training_optimizer ld e)
           (fun e => concat (map (fun _ => pass_events) (batches (shuffle F e) ld))
                     ++ [EvPrint])) in H.
  - exact H.
  - intros a acc s0 s0' v0 H0. eapply epoch_trace. exact H0.
Qed.

(** C6: the five operations of a training iteration (zero the gradients,
    forward pass, loss, backward pass, optimizer step) are always run in
    this order.  A pass of the training loop, and the single training
    step, run an initial segment of the five, cut only where a framework
    call raised, and all five when they complete; a loop over batches
    that completes has run the five once per batch, in that order; and a
    training cell that completes has done so in each of its epochs. *)
Theorem training_operations_in_fixed_order (F : Framework) (optimizer : Optimizer) :
  (forall b rl s, exists evs,
      new_events (training_pass F optimizer b rl) s evs /\
      prefix_of (filter is_training_op evs) iteration_order /\
      (completes (training_pass F optimizer b rl) s ->
       filter is_training_op evs = iteration_order)) /\
  (forall b s, exists evs,
      new_events (single_step F b) s evs /\
      prefix_of (filter is_training_op evs) iteration_order /\
      (completes (single_step F b) s ->
       filter is_training_op evs = iteration_order)) /\
  (forall bs rl s,
      completes (for_fold bs rl (training_pass F optimizer)) s ->
      exists evs,
        new_events (for_fold bs rl (training_pass F optimizer)) s evs /\
        filter is_training_op evs = concat (map (fun _ => iteration_order) bs)) /\
  (forall init ld s,
      completes (training_cell F init ld) s ->
      exists evs,
        new_events (training_cell F init ld) s evs /\
        filter is_training_op evs =
          concat (map (fun e => concat (map (fun _ => iteration_order)
                                            (batches (shuffle F e) ld)))
                      (seq 0 epochs))).
Proof.
  split; [|split; [|split]].
  - intros b rl s.
    destruct (training_pass_trace F optimizer b rl s) as (evs & Hev & Hpre & Hall).
    exists evs. split; [exact Hev|]. split.
    + apply (prefix_of_filter is_training_op) in Hpre. exact Hpre.
    + intros Hc. now rewrite (Hall Hc).
  - intros b s.
    destruct (single_step_trace F b s) as (evs & Hev & Hpre & Hall).
    exists evs. split; [exact Hev|]. split.
    + apply (prefix_of_filter is_training_op) in Hpre. exact Hpre.
    + intros Hc. now rewrite (Hall Hc).
  - intros bs rl s [v Hv].
    destruct (for_fold bs rl (training_pass F optimizer) s) as [s' r] eqn:Ef.
    simpl in Hv. subst r.
    exists (concat (map (fun _ => pass_events) bs)). split.
    + unfold new_events. rewrite Ef. simpl.
      eapply for_fold_pass_trace. exact Ef.
    + rewrite filter_concat, map_map. reflexivity.
  - intros init ld s [v Hv].
    destruct (training_cell F init ld s) as [s' r] eqn:Ec.
    simpl in Hv. subst r.
    eexists. split.
    + unfold new_events. rewrite Ec. simpl.
      eapply training_cell_trace. exact Ec.
    + rewrite filter_concat, map_map. f_equal.
      apply map_ext. intros e.
      rewrite filter_app, filter_concat, map_map. simpl. now rewrite app_nil_r.
Qed.

(** C6 on a pass, the single step, a loop of two passes and a training
    cell of five epochs of two batches. *)
Lemma training_operations_in_fixed_order_witness :
  (exists evs,
     new_events (training_pass small_framework training_optimizer small_batch 0)
                small_state evs /\
     filter is_training_op evs = iteration_order) /\
  (exists evs,
     new_events (single_step small_framework small_batch) small_state evs /\
     filter is_training_op evs = iteration_order) /\
  (exists evs,
     new_events (for_fold [small_batch; small_batch] 0
                   (training_pass small_framework training_optimizer))
                small_state evs /\
     filter is_training_op evs = iteration_order ++ iteration_order) /\
  (exists evs,
     new_events (training_cell small_framework [mkTensor [2; 1]%nat [1; 2]] fitting_loader)
                small_state evs /\
     length (filter is_training_op evs) = 50%nat).
Proof.
  destruct (training_operations_in_fixed_order small_framework training_optimizer)
    as (H1 & H2 & H3 & H4).
  split; [|split; [|split]].
  - destruct (H1 small_batch 0 small_state) as (evs & Hev & _ & Hall).
    exists evs. split; [exact Hev|].
    apply Hall. eexists. reflexivity.
  - destruct (H2 small_batch small_state) as (evs & Hev & _ & Hall).
    exists evs. split; [exact Hev|].
    apply Hall. eexists. reflexivity.
  - destruct (H3 [small_batch; small_batch] 0 small_state) as (evs & Hev & Hall).
    + eexists. reflexivity.
    + exists evs. split; [exact Hev | exact Hall].
  - destruct (H4 [mkTensor [2; 1]%nat [1; 2]] fitting_loader small_state)
      as (evs & Hev & Hall).
    + eexists. reflexivity.
    + exists evs. split; [exact Hev|]. rewrite Hall. reflexivity.
Defined.

(** ** Part 3: exceptions *)

Section Exceptions.

Variable F : Framework.

Lemma framework_exn_not_own (e : fw_exn F) : not_notebooks_own (FrameworkExn e).
Proof. exact I. Qed.

Lemma training_pass_only_raises (optimizer : Optimizer) (b : Batch) (rl : R) :
  only_raises not_notebooks_own (training_pass F optimizer b rl).
Proof.
  unfold training_pass.
  apply only_raises_bind.
  { unfold flatten. destruct (shape (images b)).
    - intros s s' x H. injection H as _ <-. simpl. now right.
    - apply only_raises_call. apply framework_exn_not_own. }
  intros imgs. apply only_raises_bind.
  { unfold zero_grad. apply only_raises_bind; [apply only_raises_log|].
    intros _. apply only_raises_state. }
  intros _. apply only_raises_bind.
  { intros s s' x H. unfold forward in H.
    eapply only_raises_call; [apply framework_exn_not_own | exact H]. }
  intros out. apply only_raises_bind.
  { apply only_raises_call. apply framework_exn_not_own. }
  intros loss. apply only_raises_bind.
  { intros s s' x H. unfold backward in H.
    revert H. apply only_raises_bind.
    - apply only_raises_call. apply framework_exn_not_own.
    - intros gs. apply only_raises_state. }
  intros _. apply only_raises_bind.
  { unfold step. apply only_raises_bind; [apply only_raises_log|].
    intros _. apply only_raises_state. }
  intros _. apply only_raises_bind.
  { unfold item. apply only_raises_bind; [apply only_raises_log|].
    intros _. apply only_raises_ret. }
  intros l. apply only_raises_ret.
Qed.

Lemma epoch_only_raises (optimizer : Optimizer) (ld : Loader) (e : nat) :
  only_raises not_notebooks_own (epoch F optimizer ld e).
Proof.
  unfold epoch. apply only_raises_bind.
  { apply only_raises_for_fold. intros b rl. apply training_pass_only_raises. }
  intros rl. apply only_raises_bind.
  { unfold py_div. destruct (len ld =? 0)%nat.
    - intros s s' x H. injection H as _ <-. simpl. now left.
    - apply only_raises_ret. }
  intros avg. unfold print. apply only_raises_bind; [apply only_raises_log|].
  intros _. apply only_raises_state.
Qed.

Lemma notebook_only_raises (init : list Tensor) :
  only_raises not_notebooks_own (notebook F init).
Proof.
  unfold notebook. apply only_raises_bind.
  { apply only_raises_call. apply framework_exn_not_own. }
  intros trainset. unfold training_cell. apply only_raises_bind.
  { unfold new_model. apply only_raises_state. }
  intros _. unfold for_each. apply only_raises_for_fold.
  intros e _. apply epoch_only_raises.
Qed.

Lemma zero_grad_values (ps : list Param) :
  map value (map (fun p => mkParam (value p) (option_map (tmap (fun _ => 0)) (grad p))) ps)
  = map value ps.
Proof.
  rewrite map_map. apply map_ext. reflexivity.
Qed.

(** A pass raises a framework exception exactly when one of its
    framework calls fails, and the exception is that of the first call
    that fails. *)
Lemma training_pass_raises_iff (optimizer : Optimizer) (b : Batch) (rl : R)
      (s : State) (e : fw_exn F) :
  pass_failure F b s e <->
  raises (training_pass F optimizer b rl) s (FrameworkExn e).
Proof.
  unfold pass_failure, raises.
  unfold training_pass, flatten, zero_grad, forward, loss_of, backward, step, item,
    call, log, bind, ret, raise.
  destruct (shape (images b)) as [|n sh]; simpl.
  { split; [intros [H _]; congruence | discriminate]. }
  destruct (view_flat (images b)) as [x|]; simpl.
  2:{ split.
      - intros [_ ->]. reflexivity.
      - intros H. split; [discriminate | congruence]. }
  rewrite zero_grad_values.
  destruct (model_forward F (map value (params s)) x) as [e1|out]; simpl.
  { split.
    - intros [_ ->]. reflexivity.
    - intros H. split; [discriminate | congruence]. }
  destruct (criterion F out (labels b)) as [e2|loss]; simpl.
  { split.
    - intros [_ ->]. reflexivity.
    - intros H. split; [discriminate | congruence]. }
  rewrite zero_grad_values.
  destruct (autograd F (map value (params s)) x (labels b)) as [e3|gs]; simpl.
  { split.
    - intros [_ H]. congruence.
    - intros H. split; [discriminate | congruence]. }
  split.
  - intros [_ H]. discriminate.
  - discriminate.
Qed.

Lemma seq_split (e n : nat) :
  (e < n)%nat -> seq 0 n = seq 0 e ++ e :: seq (S e) (n - S e).
Proof.
  intros H. replace n with (e + S (n - S e))%nat at 1 by lia.
  rewrite seq_app. reflexivity.
Qed.

(** An exception raised in a pass of some epoch leaves the training cell
    as it is, in the state of the raise: no later statement is run. *)
Lemma training_cell_propagates (init : list Tensor) (ld : Loader) (s : State)
      (e : nat) (pre : list Batch) (b : Batch) (post : list Batch)
      (s0 s1 s2 : State) (rl : R) (x : Exn (fw_exn F)) :
  (e < epochs)%nat ->
  for_each (seq 0 e) (epoch F training_optimizer ld) (fst (new_model F init s))
    = (s0, inr tt) ->
  batches (shuffle F e) ld = pre ++ b :: post ->
  for_fold pre 0 (training_pass F training_optimizer) s0 = (s1, inr rl) ->
  training_pass F training_optimizer b rl s1 = (s2, inl x) ->
  training_cell F init ld s = (s2, inl x).
Proof.
  intros He Hepochs Hbs Hpre Hb.
  unfold training_cell.
  rewrite (bind_value _ _ s (fst (new_model F init s)) tt) by reflexivity.
  rewrite (seq_split e epochs He). unfold for_each in *.
  eapply for_fold_raise; [exact Hepochs|].
  unfold epoch. apply bind_raise. rewrite Hbs.
  eapply for_fold_raise; eassumption.
Qed.

End Exceptions.

(** C8: the cells handle nothing and raise nothing of their own.
    Whatever the notebook raises is an exception of the framework or a
    built-in one of the interpreter, never one made by a [raise] of the
    notebook; when the data set cannot be loaded, the framework's
    exception is what the notebook ends with; a pass of the training
    loop raises a framework exception exactly when one of its framework
    calls fails, and it is the exception of that call; and an exception
    raised in a pass ends the whole training cell with that exception,
    in the state of the raise. *)
Theorem framework_exceptions_propagate (F : Framework) (init : list Tensor) :
  (forall s x, raises (notebook F init) s x -> not_notebooks_own x) /\
  (forall s e, load_MNIST F = inl e -> raises (notebook F init) s (FrameworkExn e)) /\
  (forall optimizer b rl s e,
      pass_failure F b s e <->
      raises (training_pass F optimizer b rl) s (FrameworkExn e)) /\
  (forall ld s e pre b post s0 s1 s2 rl x,
      (e < epochs)%nat ->
      for_each (seq 0 e) (epoch F training_optimizer ld) (fst (new_model F init s))
        = (s0, inr tt) ->
      batches (shuffle F e) ld = pre ++ b :: post ->
      for_fold pre 0 (training_pass F training_optimizer) s0 = (s1, inr rl) ->
      training_pass F training_optimizer b rl s1 = (s2, inl x) ->
      training_cell F init ld s = (s2, inl x)).
Proof.
  split; [|split; [|split]].
  - intros s x H. unfold raises in H.
    destruct (notebook F init s) as [s' r] eqn:En. simpl in H. subst r.
    eapply notebook_only_raises. exact En.
  - intros s e H. unfold raises, notebook, call, bind, log. rewrite H. reflexivity.
  - intros optimizer b rl s e. apply training_pass_raises_iff.
  - intros ld s e pre b post s0 s1 s2 rl x.
    apply training_cell_propagates.
Qed.

(** C8 on a data set that cannot be found, and on a loader whose second
    batch the model refuses. *)
Lemma framework_exceptions_propagate_witness :
  not_notebooks_own (FrameworkExn (E := string) "Dataset not found"%string) /\
  raises (notebook small_framework []) small_state (FrameworkExn "Dataset not found"%string) /\
  raises (training_pass small_framework training_optimizer odd_batch 0) small_state
         (FrameworkExn "size mismatch"%string) /\
  raises (training_cell small_framework [mkTensor [2; 1]%nat [1; 2]] small_loader)
         small_state (FrameworkExn "size mismatch"%string).
Proof.
  destruct (framework_exceptions_propagate small_framework [])
    as (H1 & H2 & _ & _).
  destruct (framework_exceptions_propagate small_framework [mkTensor [2; 1]%nat [1; 2]])
    as (_ & _ & H3 & H4).
  assert (Hload : raises (notebook small_framework []) small_state
                         (FrameworkExn "Dataset not found"%string)).
  { apply H2. reflexivity. }
  split; [|split; [|split]].
  - apply (H1 small_state). exact Hload.
  - exact Hload.
  - apply H3. split; [discriminate | reflexivity].
  - unfold raises.
    pose (b1 := collate [(mkTensor [1; 1; 2]%nat [0; 0], 0%Z)]).
    pose (b2 := collate [(mkTensor [1; 1; 3]%nat [0; 0; 0], 1%Z)]).
    pose (s0 := fst (new_model small_framework [mkTensor [2; 1]%nat [1; 2]] small_state)).
    pose (s1 := fst (training_pass small_framework training_optimizer b1 0 s0)).
    pose (s2 := fst (training_pass small_framework training_optimizer b2 (0 + 0) s1)).
    rewrite (H4 small_loader small_state 0%nat [b1] b2 [] s0 s1 s2 (0 + 0)
               (FrameworkExn "size mismatch"%string)).
    + reflexivity.
    + unfold epochs. lia.
    + reflexivity.
    + reflexivity.
    + vm_compute. reflexivity.
    + vm_compute. reflexivity.
Defined.

(** * Further properties of the notebooks' code *)

(** ** Entries and rows *)

Lemma nth_map_in_range (f : R -> R) (l : list R) (i : nat) :
  (i < length l)%nat -> nth i (map f l) 0 = f (nth i l 0).
Proof.
  intros Hi. rewrite (nth_indep _ 0 (f 0)) by (rewrite length_map; exact Hi).
  apply map_nth.
Qed.

Lemma rows_length (m n : nat) (l : list R) : length (rows m n l) = m.
Proof.
  revert l. induction m as [|m IH]; intros l; simpl; [reflexivity | now rewrite IH].
Qed.

Lemma view_flat_value (t : Tensor) (n : nat) (rest : list nat) :
  shape t = n :: rest -> well_formed t -> n <> 0%nat ->
  view_flat t = Some (mkTensor [n; numel_of rest] (data t)).
Proof.
  intros Hsh Hwf Hn. unfold well_formed in Hwf. rewrite Hsh in Hwf.
  change (numel_of (n :: rest)) with (n * numel_of rest)%nat in Hwf.
  unfold view_flat. rewrite Hsh, Hwf.
  apply Nat.eqb_neq in Hn. rewrite Hn. apply Nat.eqb_neq in Hn.
  rewrite (Nat.mul_comm n), Nat.Div0.mod_mul, Nat.eqb_refl, Nat.div_mul by exact Hn.
  reflexivity.
Qed.

(** ** The network built by hand *)

Lemma rows_row_length (m n : nat) (l : list R) :
  length l = (m * n)%nat -> Forall (fun r => length r = n) (rows m n l).
Proof.
  revert l. induction m as [|m IH]; intros l Hl; simpl.
  - constructor.
  - simpl in Hl. constructor.
    + rewrite length_firstn. lia.
    + apply IH. rewrite length_skipn. lia.
Qed.

Lemma rows_concat (m n : nat) (l : list R) :
  length l = (m * n)%nat -> concat (rows m n l) = l.
Proof.
  revert l. induction m as [|m IH]; intros l Hl; simpl.
  - destruct l; [reflexivity | simpl in Hl; lia].
  - simpl in Hl. rewrite IH by (rewrite length_skipn; lia).
    apply firstn_skipn.
Qed.

Lemma zip_plus_zeros (r : list R) :
  zip_with Rplus r (repeat 0 (length r)) = r.
Proof.
  induction r as [|v r IH]; simpl.
  - reflexivity.
  - rewrite IH. f_equal. lra.
Qed.

Lemma mm_value (a b : Tensor) (m k n : nat) :
  shape a = [m; k] -> shape b = [k; n] ->
  exists d, mm a b = Some (mkTensor [m; n] d) /\ length d = (m * n)%nat.
Proof.
  intros Ha Hb. unfold mm. rewrite Ha, Hb, Nat.eqb_refl.
  eexists. split; [reflexivity|].
  rewrite (concat_length_uniform n).
  - rewrite length_map, rows_length. lia.
  - apply Forall_map. apply Forall_forall. intros r _.
    now rewrite length_map, length_seq.
Qed.

(** Adding a bias of zeros changes nothing. *)
Lemma add_bias_zeros (m n : nat) (d : list R) :
  length d = (m * n)%nat ->
  add_bias (mkTensor [m; n] d) (full [n] 0) = Some (mkTensor [m; n] d).
Proof.
  intros Hd. unfold add_bias. cbn [shape data full]. rewrite Nat.eqb_refl.
  do 2 f_equal.
  change (numel_of [n]) with (n * 1)%nat. rewrite Nat.mul_1_r.
  rewrite <- (rows_concat m n d Hd) at 2. f_equal.
  pose proof (rows_row_length m n d Hd) as Hrows.
  induction Hrows as [|r rs Hr _ IH]; simpl.
  - reflexivity.
  - rewrite IH. f_equal. rewrite <- Hr. apply zip_plus_zeros.
Qed.

(** What the cell computes, step by step. *)
Lemma manual_network_steps (draw : nat -> R) (imgs : Tensor) (m : nat) (rest : list nat) :
  shape imgs = m :: rest -> well_formed imgs -> m <> 0%nat ->
  let k := numel_of rest in
  let inputs := mkTensor [m; k] (data imgs) in
  exists h o,
    mm inputs (randn draw 0 [k; 256]%nat) = Some (mkTensor [m; 256%nat] h) /\
    length h = (m * 256)%nat /\
    manual_hidden draw imgs = Some (sigmoid (mkTensor [m; 256%nat] h)) /\
    mm (sigmoid (mkTensor [m; 256%nat] h)) (randn draw (k * 256) [256; 10]%nat)
      = Some (mkTensor [m; 10%nat] o) /\
    length o = (m * 10)%nat /\
    manual_network draw imgs = Some (mkTensor [m; 10%nat] o).
Proof.
  intros Hsh Hwf Hm k inputs.
  pose proof (view_flat_value imgs m rest Hsh Hwf Hm) as Hview.
  fold k in Hview. fold inputs in Hview.
  destruct (mm_value inputs (randn draw 0 [k; 256]%nat) m k 256 eq_refl eq_refl)
    as (h & Hh & Hhlen).
  destruct (mm_value (sigmoid (mkTensor [m; 256%nat] h))
                     (randn draw (k * 256) [256; 10]%nat) m 256 10 eq_refl eq_refl)
    as (o & Ho & Holen).
  assert (Hhidden : manual_hidden draw imgs = Some (sigmoid (mkTensor [m; 256%nat] h))).
  { unfold manual_hidden. rewrite Hview. cbn [shape inputs].
    rewrite Hh. now rewrite (add_bias_zeros m 256 h Hhlen). }
  exists h, o. repeat split; try assumption.
  unfold manual_network. rewrite Hview. cbn [shape inputs].
  rewrite Hhidden, Ho. now apply add_bias_zeros.
Qed.

(** X5: on a well-formed batch of [m >= 1] images the cell of the
    hand-built network succeeds: the hidden layer has shape [m x 256],
    is well formed and has all its entries between 0 and 1 (the bounds
    included), and [out] has shape [m x 10] and is well formed (the
    recorded [torch.Size([64, 10])] for 64 images). *)
Theorem manual_network_shapes (draw : nat -> R) (imgs : Tensor) (m : nat) (rest : list nat) :
  shape imgs = m :: rest -> well_formed imgs -> m <> 0%nat ->
  exists hidden out,
    manual_hidden draw imgs = Some hidden /\
    shape hidden = [m; 256%nat] /\ well_formed hidden /\
    Forall (fun v => 0 <= v <= 1) (data hidden) /\
    manual_network draw imgs = Some out /\
    shape out = [m; 10%nat] /\ well_formed out.
Proof.
  intros Hsh Hwf Hm.
  destruct (manual_network_steps draw imgs m rest Hsh Hwf Hm)
    as (h & o & _ & Hhlen & Hhidden & _ & Holen & Hout).
  exists (sigmoid (mkTensor [m; 256%nat] h)), (mkTensor [m; 10%nat] o).
  split; [exact Hhidden|]. split; [reflexivity|]. split.
  { unfold well_formed. rewrite sigmoid_data, length_map.
    change (shape (sigmoid (mkTensor [m; 256%nat] h))) with [m; 256%nat].
    change (numel_of [m; 256%nat]) with (m * (256 * 1))%nat.
    cbn [data]. lia. }
  split.
  { rewrite sigmoid_data. apply Forall_forall. intros v Hv.
    apply in_map_iff in Hv. destruct Hv as [t [<- _]].
    pose proof (logistic_bounds t). lra. }
  split; [exact Hout|]. split; [reflexivity|].
  unfold well_formed. cbn [shape data].
  change (numel_of [m; 10%nat]) with (m * (10 * 1))%nat. lia.
Qed.

Lemma manual_network_shapes_witness :
  exists hidden out,
    manual_hidden (fun n => INR n - 100) (full [64; 1; 28; 28]%nat 1) = Some hidden /\
    shape hidden = [64; 256]%nat /\ well_formed hidden /\
    Forall (fun v => 0 <= v <= 1) (data hidden) /\
    manual_network (fun n => INR n - 100) (full [64; 1; 28; 28]%nat 1) = Some out /\
    shape out = [64; 10]%nat /\ well_formed out.
Proof.
  apply (manual_network_shapes (fun n => INR n - 100) (full [64; 1; 28; 28]%nat 1)
           64 [1; 28; 28]%nat).
  - reflexivity.
  - unfold well_formed. apply repeat_length.
  - lia.
Defined.

(** X6: the two biases of the hand-built network are zeros, so they
    change nothing: [out] is exactly [mm(sigmoid(mm(inputs, w1)), w2)]
    for the flattened [inputs] and the two random weight matrices. *)
Theorem manual_network_without_biases (draw : nat -> R) (imgs : Tensor)
        (m : nat) (rest : list nat) :
  shape imgs = m :: rest -> well_formed imgs -> m <> 0%nat ->
  let k := numel_of rest in
  exists inputs h,
    view_flat imgs = Some inputs /\
    mm inputs (randn draw 0 [k; 256]%nat) = Some h /\
    manual_network draw imgs = mm (sigmoid h) (randn draw (k * 256) [256; 10]%nat) /\
    manual_network draw imgs <> None.
Proof.
  intros Hsh Hwf Hm k.
  destruct (manual_network_steps draw imgs m rest Hsh Hwf Hm)
    as (h & o & Hh & _ & _ & Ho & _ & Hout).
  exists (mkTensor [m; k] (data imgs)), (mkTensor [m; 256%nat] h).
  split; [now apply view_flat_value|]. split; [exact Hh|].
  fold k in Ho. rewrite Ho, Hout. split; [reflexivity | discriminate].
Qed.

Lemma manual_network_without_biases_witness :
  exists inputs h,
    view_flat (full [2; 1; 1; 2]%nat 0) = Some inputs /\
    mm inputs (randn (fun _ => 1) 0 [numel_of [1; 1; 2]%nat; 256%nat]) = Some h /\
    manual_network (fun _ => 1) (full [2; 1; 1; 2]%nat 0) =
      mm (sigmoid h) (randn (fun _ => 1) (numel_of [1; 1; 2]%nat * 256) [256; 10]%nat) /\
    manual_network (fun _ => 1) (full [2; 1; 1; 2]%nat 0) <> None.
Proof.
  apply (manual_network_without_biases (fun _ => 1) (full [2; 1; 1; 2]%nat 0) 2 [1; 1; 2]%nat).
  - reflexivity.
  - unfold well_formed. apply repeat_length.
  - lia.
Defined.

(** ** The autograd cells *)

Lemma with_entry_length (x : Tensor) (i : nat) (t : R) :
  (i < length (data x))%nat -> length (data (with_entry x i t)) = length (data x).
Proof.
  intros Hi. unfold with_entry. cbn [data].
  rewrite length_app, length_firstn. cbn [length]. rewrite length_skipn. lia.
Qed.

Lemma mean_pow2_with_entry (x : Tensor) (i : nat) (t : R) :
  (i < length (data x))%nat ->
  mean (pow2 (with_entry x i t)) =
  / INR (length (data x)) *
  (Rsum (map (fun v => v ^ 2) (firstn i (data x)))
   + Rsum (map (fun v => v ^ 2) (skipn (S i) (data x)))
   + t * t).
Proof.
  intros Hi. unfold mean, Torch.sum, pow2, tmap. cbn [data].
  rewrite length_map, with_entry_length by exact Hi.
  unfold with_entry. cbn [data].
  rewrite map_app, Rsum_app. simpl. unfold Rdiv. ring.
Qed.

Lemma square_derivative (c a t0 : R) :
  derivable_pt_lim (fun t => c * (a + t * t)) t0 (c * (2 * t0)).
Proof.
  apply (derivable_pt_lim_ext
           (mult_real_fct c (plus_fct (fct_cte a) (mult_fct id id)))).
  { intros z. reflexivity. }
  replace (c * (2 * t0)) with (c * (0 + (1 * id t0 + id t0 * 1)))
    by (unfold id; ring).
  apply derivable_pt_lim_scal.
  apply derivable_pt_lim_plus.
  - apply derivable_pt_lim_const.
  - apply derivable_pt_lim_mult; apply derivable_pt_lim_id.
Qed.

(** X7: for [y = x**2] and [z = y.mean()], the derivative of [z] with
    respect to the entry [i] of [x] is [2 * x_i / n] for a tensor of [n]
    entries; for the four entries of the notebook's [torch.randn(2,2)]
    it is the entry [i] of [x/2], which the cell prints beside
    [x.grad]. *)
Theorem mean_of_squares_gradient (x : Tensor) (i : nat) :
  (i < length (data x))%nat ->
  derivable_pt_lim (fun t => mean (pow2 (with_entry x i t)))
                   (nth i (data x) 0)
                   (2 * nth i (data x) 0 / INR (length (data x))) /\
  (length (data x) = 4%nat ->
   derivable_pt_lim (fun t => mean (pow2 (with_entry x i t)))
                    (nth i (data x) 0)
                    (nth i (data (Torch.div x 2)) 0)).
Proof.
  intros Hi.
  set (a := Rsum (map (fun v => v ^ 2) (firstn i (data x)))
            + Rsum (map (fun v => v ^ 2) (skipn (S i) (data x)))).
  assert (Hd : derivable_pt_lim (fun t => mean (pow2 (with_entry x i t)))
                 (nth i (data x) 0)
                 (/ INR (length (data x)) * (2 * nth i (data x) 0))).
  { apply (derivable_pt_lim_ext (fun t => / INR (length (data x)) * (a + t * t))).
    - intros z. symmetry. now apply mean_pow2_with_entry.
    - apply square_derivative. }
  split.
  - replace (2 * nth i (data x) 0 / INR (length (data x)))
      with (/ INR (length (data x)) * (2 * nth i (data x) 0))
      by (unfold Rdiv; ring).
    exact Hd.
  - intros H4. unfold Torch.div, tmap. cbn [data].
    rewrite nth_map_in_range by exact Hi.
    rewrite H4 in Hd.
    replace (nth i (data x) 0 / 2) with (/ INR 4 * (2 * nth i (data x) 0)).
    + exact Hd.
    + replace (INR 4) with 4 by (rewrite INR_IZR_INZ; reflexivity). field.
Qed.

Lemma mean_of_squares_gradient_witness :
  derivable_pt_lim
    (fun t => mean (pow2 (with_entry (mkTensor [2; 2]%nat [1; 2; 3; 4]) 2 t)))
    (nth 2 [1; 2; 3; 4] 0)
    (nth 2 (data (Torch.div (mkTensor [2; 2]%nat [1; 2; 3; 4]) 2)) 0).
Proof.
  apply (mean_of_squares_gradient (mkTensor [2; 2]%nat [1; 2; 3; 4]) 2).
  - simpl. lia.
  - reflexivity.
Defined.

(** ** Log-probabilities *)

Lemma exp_sum_pos (r : list R) : r <> [] -> 0 < Rsum (map Rtrigo_def.exp r).
Proof.
  destruct r as [|v r]; [congruence|]. intros _. simpl.
  pose proof (exp_pos v). pose proof (exp_sum_nonneg r). lra.
Qed.

Lemma log_softmax_row_exp (r : list R) :
  r <> [] ->
  map Rtrigo_def.exp (log_softmax_row r) =
  map (fun v => v / Rsum (map Rtrigo_def.exp r)) (map Rtrigo_def.exp r).
Proof.
  intros Hr. unfold log_softmax_row. rewrite !map_map.
  apply map_ext. intros v.
  unfold Rminus. rewrite exp_plus, exp_Ropp, exp_ln by now apply exp_sum_pos.
  reflexivity.
Qed.

Lemma log_softmax_row_normalised (r : list R) :
  r <> [] -> Rsum (map Rtrigo_def.exp (log_softmax_row r)) = 1.
Proof.
  intros Hr. rewrite log_softmax_row_exp, Rsum_scale by exact Hr.
  pose proof (exp_sum_pos r Hr). field. lra.
Qed.

Lemma log_softmax_row_idempotent (r : list R) :
  log_softmax_row (log_softmax_row r) = log_softmax_row r.
Proof.
  destruct r as [|v r]; [reflexivity|].
  unfold log_softmax_row at 1.
  rewrite log_softmax_row_normalised by discriminate.
  rewrite ln_1. rewrite <- (map_id (log_softmax_row (v :: r))) at 2.
  apply map_ext. intros a. lra.
Qed.

Lemma log_softmax_row_length (r : list R) : length (log_softmax_row r) = length r.
Proof. apply length_map. Qed.

Lemma rows_of_concat (n : nat) (ls : list (list R)) :
  Forall (fun r => length r = n) ls -> rows (length ls) n (concat ls) = ls.
Proof.
  induction 1 as [|r ls Hr _ IH]; simpl.
  - reflexivity.
  - rewrite firstn_app, skipn_app, Hr, Nat.sub_diag.
    rewrite firstn_all2, skipn_all2 by lia.
    simpl. rewrite app_nil_r. now rewrite IH.
Qed.

(** The rows of the log-softmax of a well-formed tensor. *)
Lemma log_softmax_rows (m n : nat) (d : list R) :
  length d = (m * n)%nat ->
  rows m n (concat (map log_softmax_row (rows m n d))) = map log_softmax_row (rows m n d).
Proof.
  intros Hd.
  rewrite <- (rows_length m n d) at 1. rewrite <- (length_map log_softmax_row).
  apply rows_of_concat. apply Forall_map.
  eapply Forall_impl; [|apply (rows_row_length m n d Hd)].
  intros r Hr. simpl in Hr. now rewrite log_softmax_row_length.
Qed.

Lemma log_softmax_idempotent (x : Tensor) (m n : nat) :
  shape x = [m; n] -> well_formed x ->
  exists logps, log_softmax x = Some logps /\ log_softmax logps = Some logps.
Proof.
  intros Hsh Hwf. unfold well_formed in Hwf. rewrite Hsh in Hwf.
  change (numel_of [m; n]) with (m * (n * 1))%nat in Hwf. rewrite Nat.mul_1_r in Hwf.
  unfold log_softmax at 1. rewrite Hsh. eexists. split; [reflexivity|].
  unfold log_softmax. cbn [shape data].
  rewrite log_softmax_rows by exact Hwf.
  rewrite map_map. do 3 f_equal.
  apply map_ext. intros r. apply log_softmax_row_idempotent.
Qed.

(** X8: the output of a model that ends in [nn.LogSoftmax(dim=1)] is
    left unchanged by a second log-softmax, so the
    [nn.CrossEntropyLoss()] that the cell applies to such an output
    gives exactly what [nn.NLLLoss()] gives on it. *)
Theorem cross_entropy_on_log_softmax {A : Type} (nll : Tensor -> list Z -> A)
        (x : Tensor) (m n : nat) (lbls : list Z) :
  shape x = [m; n] -> well_formed x ->
  exists logps,
    log_softmax x = Some logps /\
    log_softmax logps = Some logps /\
    CrossEntropyLoss nll logps lbls = Some (nll logps lbls).
Proof.
  intros Hsh Hwf.
  destruct (log_softmax_idempotent x m n Hsh Hwf) as (logps & H1 & H2).
  exists logps. split; [exact H1|]. split; [exact H2|].
  unfold CrossEntropyLoss. now rewrite H2.
Qed.

Lemma cross_entropy_on_log_softmax_witness :
  exists logps,
    log_softmax (mkTensor [1; 2]%nat [0; 0]) = Some logps /\
    log_softmax logps = Some logps /\
    CrossEntropyLoss (fun t _ => nth 0 (data t) 0) logps [0%Z] =
      Some (nth 0 (data logps) 0).
Proof.
  apply (cross_entropy_on_log_softmax (fun t _ => nth 0 (data t) 0)
           (mkTensor [1; 2]%nat [0; 0]) 1 2 [0%Z]).
  - reflexivity.
  - reflexivity.
Defined.

(** ** What a pass of the training loop does to the model *)

Section PassEffects.

Variable F : Framework.
Variable optimizer : Optimizer.

(** A pass that completes: the calls that succeeded and what they left. *)
Lemma training_pass_completed (b : Batch) (rl v : R) (s s' : State) :
  training_pass F optimizer b rl s = (s', inr v) ->
  exists x out loss gs,
    view_flat (images b) = Some x /\
    model_forward F (map value (params s)) x = inr out /\
    criterion F out (labels b) = inr loss /\
    autograd F (map value (params s)) x (labels b) = inr gs /\
    v = rl + loss /\
    params s' =
      map (sgd_param (lr optimizer))
          (accumulate_all
             (map (fun p => mkParam (value p) (option_map (tmap (fun _ => 0)) (grad p)))
                  (params s))
             gs) /\
    stdout s' = stdout s.
Proof.
  unfold training_pass, flatten, zero_grad, forward, loss_of, backward, step, item,
    call, log, bind, ret, raise.
  destruct (shape (images b)) as [|n sh]; simpl; [discriminate|].
  destruct (view_flat (images b)) as [x|]; simpl; [|discriminate].
  rewrite zero_grad_values.
  destruct (model_forward F (map value (params s)) x) as [e1|out] eqn:Ef; simpl;
    [discriminate|].
  destruct (criterion F out (labels b)) as [e2|loss] eqn:Ec; simpl; [discriminate|].
  rewrite zero_grad_values.
  destruct (autograd F (map value (params s)) x (labels b)) as [e3|gs] eqn:Ea; simpl;
    [discriminate|].
  intros H. injection H as <- <-.
  exists x, out, loss, gs. simpl. repeat split; try assumption; reflexivity.
Qed.

(** A pass never prints. *)
Lemma training_pass_stdout (b : Batch) (rl : R) (s : State) :
  stdout (fst (training_pass F optimizer b rl s)) = stdout s.
Proof.
  unfold training_pass, flatten, zero_grad, forward, loss_of, backward, step, item,
    call, log, bind, ret, raise.
  destruct (shape (images b)) as [|n sh]; simpl; [reflexivity|].
  destruct (view_flat (images b)) as [x|]; simpl; [|reflexivity].
  match goal with |- context [model_forward F ?ws ?t] =>
    destruct (model_forward F ws t) as [e1|out] end; simpl; [reflexivity|].
  destruct (criterion F out (labels b)) as [e2|loss]; simpl; [reflexivity|].
  match goal with |- context [autograd F ?ws ?t ?l] =>
    destruct (autograd F ws t l) as [e3|gs] end; simpl; reflexivity.
Qed.

(** X10: a pass of the training loop that raises leaves the weights of
    the model as they were before the pass (at most the stored gradients
    were zeroed), and has printed nothing. *)
Theorem failed_pass_keeps_weights (b : Batch) (rl : R) (s s' : State)
        (x : Exn (fw_exn F)) :
  training_pass F optimizer b rl s = (s', inl x) ->
  map value (params s') = map value (params s) /\
  stdout s' = stdout s.
Proof.
  intros H. split.
  - revert H.
    unfold training_pass, flatten, zero_grad, forward, loss_of, backward, step, item,
      call, log, bind, ret, raise.
    destruct (shape (images b)) as [|n sh]; simpl.
    { intros H. now injection H as <- _. }
    destruct (view_flat (images b)) as [t|]; simpl.
    2:{ intros H. now injection H as <- _. }
    rewrite zero_grad_values.
    destruct (model_forward F (map value (params s)) t) as [e1|out]; simpl.
    { intros H. injection H as <- _. simpl. apply zero_grad_values. }
    destruct (criterion F out (labels b)) as [e2|loss]; simpl.
    { intros H. injection H as <- _. simpl. apply zero_grad_values. }
    rewrite zero_grad_values.
    destruct (autograd F (map value (params s)) t (labels b)) as [e3|gs]; simpl.
    { intros H. injection H as <- _. simpl. apply zero_grad_values. }
    discriminate.
  - pose proof (training_pass_stdout b rl s) as Hs. now rewrite H in Hs.
Qed.

End PassEffects.

Lemma failed_pass_keeps_weights_witness :
  map value (params (fst (training_pass small_framework training_optimizer
                                        odd_batch 0 small_state)))
    = map value (params small_state) /\
  stdout (fst (training_pass small_framework training_optimizer
                             odd_batch 0 small_state))
    = stdout small_state.
Proof.
  apply (failed_pass_keeps_weights small_framework training_optimizer odd_batch 0
           small_state _ (FrameworkExn "size mismatch"%string)).
  vm_compute. reflexivity.
Defined.

Lemma nth_error_accumulate_all (ps : list Param) (gs : list Tensor)
      (k : nat) (p : Param) (g : Tensor) :
  nth_error ps k = Some p -> nth_error gs k = Some g ->
  nth_error (accumulate_all ps gs) k = Some (accumulate p g).
Proof.
  revert gs k. induction ps as [|p0 ps IH]; intros gs k Hp Hg.
  - destruct k; discriminate.
  - destruct gs as [|g0 gs]; [destruct k; discriminate|].
    destruct k as [|k]; simpl in *.
    + injection Hp as <-. injection Hg as <-. reflexivity.
    + now apply IH.
Qed.

(** The value of a parameter after [zero_grad], [backward] with the
    gradient [g] and [step]. *)
Lemma fresh_gradient_update (alpha : R) (w g : Tensor) (g0 : option Tensor) (i : nat) :
  length (data g) = length (data w) ->
  (forall old, g0 = Some old -> length (data old) = length (data w)) ->
  (i < length (data w))%nat ->
  let p := accumulate (mkParam w (option_map (tmap (fun _ => 0)) g0)) g in
  let w' := value (sgd_param alpha p) in
  shape w' = shape w /\ length (data w') = length (data w) /\
  nth i (data w') 0 = nth i (data w) 0 - alpha * nth i (data g) 0.
Proof.
  intros Hg Hold Hi p w'.
  destruct g0 as [old|]; unfold w', p, sgd_param, accumulate, sgd_update;
    cbn [grad value shape data option_map].
  - specialize (Hold old eq_refl).
    assert (Hz : length (map (fun _ : R => 0) (data old)) = length (data g))
      by (rewrite length_map; lia).
    split; [reflexivity|]. split.
    + rewrite zip_with_length; [reflexivity|].
      unfold add, tmap. cbn [data]. rewrite zip_with_length; lia.
    + rewrite zip_with_nth; try lia.
      * unfold add, tmap. cbn [data]. rewrite zip_with_nth by lia.
        rewrite nth_map_in_range by lia. lra.
      * unfold add, tmap. cbn [data]. rewrite zip_with_length; lia.
  - split; [reflexivity|]. split.
    + apply zip_with_length. lia.
    + apply zip_with_nth; lia.
Qed.

(** X11: a pass of the training loop that completes is one step of plain
    gradient descent on the gradient autograd computes for this batch:
    every parameter ends as its value before the pass minus the learning
    rate times that gradient, whatever gradient it held before the pass
    (the pass zeroes it first). *)
Theorem pass_is_gradient_descent_on_batch
        (F : Framework) (optimizer : Optimizer) (b : Batch) (rl v : R) (s s' : State) :
  training_pass F optimizer b rl s = (s', inr v) ->
  exists x gs,
    view_flat (images b) = Some x /\
    autograd F (map value (params s)) x (labels b) = inr gs /\
    forall k w g0 g,
      nth_error (params s) k = Some (mkParam w g0) ->
      nth_error gs k = Some g ->
      length (data g) = length (data w) ->
      (forall old, g0 = Some old -> length (data old) = length (data w)) ->
      exists p',
        nth_error (params s') k = Some p' /\
        shape (value p') = shape w /\
        length (data (value p')) = length (data w) /\
        forall i, (i < length (data w))%nat ->
          nth i (data (value p')) 0 =
          nth i (data w) 0 - lr optimizer * nth i (data g) 0.
Proof.
  intros H.
  destruct (training_pass_completed F optimizer b rl v s s' H)
    as (x & out & loss & gs & Hview & _ & _ & Hgrad & _ & Hparams & _).
  exists x, gs. split; [exact Hview|]. split; [exact Hgrad|].
  intros k w g0 g Hk Hg Hlen Hold.
  exists (sgd_param (lr optimizer)
            (accumulate (mkParam w (option_map (tmap (fun _ => 0)) g0)) g)).
  split.
  - rewrite Hparams, nth_error_map.
    erewrite nth_error_accumulate_all; [reflexivity | | exact Hg].
    rewrite nth_error_map, Hk. reflexivity.
  - split; [|split].
    + destruct g0; reflexivity.
    + destruct (Nat.eq_dec (length (data w)) 0) as [Hz|Hnz].
      * destruct g0 as [old|]; unfold sgd_param, accumulate, sgd_update;
          cbn [grad value data option_map];
          destruct (data w); simpl in *; try lia; reflexivity.
      * apply (fresh_gradient_update (lr optimizer) w g g0 0 Hlen Hold). lia.
    + intros i Hi.
      apply (fresh_gradient_update (lr optimizer) w g g0 i Hlen Hold Hi).
Qed.

Lemma pass_is_gradient_descent_on_batch_witness :
  exists p',
    nth_error (params (fst (training_pass small_framework training_optimizer
                                          small_batch 0 small_state))) 0 = Some p' /\
    shape (value p') = [2; 1]%nat /\
    length (data (value p')) = 2%nat /\
    forall i, (i < 2)%nat ->
      nth i (data (value p')) 0 = nth i [1; 2] 0 - 0.003 * nth i [1; 1] 0.
Proof.
  destruct (pass_is_gradient_descent_on_batch small_framework training_optimizer
              small_batch 0 (0 + 0) small_state
              (fst (training_pass small_framework training_optimizer
                                  small_batch 0 small_state)))
    as (x & gs & _ & Hg & Hall).
  - vm_compute. reflexivity.
  - simpl in Hg. injection Hg as <-.
    apply (Hall 0%nat (mkTensor [2; 1]%nat [1; 2]) (Some (mkTensor [2; 1]%nat [3; 4]))
                (mkTensor [2; 1]%nat [1; 1])).
    + reflexivity.
    + reflexivity.
    + reflexivity.
    + intros old Hold. injection Hold as <-. reflexivity.
Defined.

(** ** The loader and the printed loss *)

Lemma batch_sampler_count {A : Type} (bsz : nat) (sampler batch : list A) :
  (0 < bsz)%nat -> (length batch < bsz)%nat ->
  length (batch_sampler bsz batch sampler) =
  ((length batch + length sampler + bsz - 1) / bsz)%nat.
Proof.
  intros Hb. revert batch. induction sampler as [|idx rest IH]; intros batch Hk; simpl.
  - destruct (0 <? length batch)%nat eqn:E.
    + apply Nat.ltb_lt in E. simpl.
      apply (Nat.div_unique _ bsz 1%nat (length batch - 1)%nat); lia.
    + apply Nat.ltb_ge in E. simpl. symmetry. apply Nat.div_small. lia.
  - destruct (length (batch ++ [idx]) =? bsz)%nat eqn:E.
    + apply Nat.eqb_eq in E. rewrite length_app in E. simpl in E.
      simpl. rewrite IH by (simpl; lia). simpl.
      replace (length batch + S (length rest) + bsz - 1)%nat
        with (1 * bsz + (length rest + bsz - 1))%nat by lia.
      rewrite Nat.div_add_l by lia. reflexivity.
    + apply Nat.eqb_neq in E. rewrite length_app in E. simpl in E.
      rewrite IH by (rewrite length_app; simpl; lia).
      rewrite length_app. simpl. f_equal. lia.
Qed.

Lemma batches_count (order : list Sample -> list Sample) (ld : Loader) :
  (0 < batch_size ld)%nat ->
  length (order (dataset ld)) = length (dataset ld) ->
  length (batches order ld) = len ld.
Proof.
  intros Hb Hlen. unfold batches, len.
  rewrite length_map, batch_sampler_count by (simpl; lia).
  rewrite Hlen. reflexivity.
Qed.

(** X12: [len(trainloader)] is the number of batches a pass over the
    loader yields, so the [running_loss / len(trainloader)] that the
    training cell prints divides by the number of passes it made. *)
Theorem loader_len_counts_batches (order : list Sample -> list Sample) (ld : Loader) :
  (0 < batch_size ld)%nat ->
  length (order (dataset ld)) = length (dataset ld) ->
  length (batches order ld) = len ld.
Proof.
  apply batches_count.
Qed.

Lemma loader_len_counts_batches_witness :
  length (batches (fun l => l) (mkLoader blank_mnist 64)) =
  len (mkLoader blank_mnist 64).
Proof.
  apply (loader_len_counts_batches (fun l => l) (mkLoader blank_mnist 64)).
  - simpl. lia.
  - reflexivity.
Defined.

(** X13: a pass over the loader delivers every sample of the data set
    once, in the order of the sampler, none left out: the labels of its
    batches, put end to end, are the labels in that order, and so are
    the entries of its images. *)
Theorem batches_cover_the_data_set (order : list Sample -> list Sample) (ld : Loader) :
  concat (map labels (batches order ld)) = map snd (order (dataset ld)) /\
  concat (map (fun b => data (images b)) (batches order ld)) =
    concat (map (fun s => data (fst s)) (order (dataset ld))).
Proof.
  unfold batches. rewrite !map_map. cbn [labels images collate data].
  pose proof (batch_sampler_covers (batch_size ld) (order (dataset ld))) as Hc.
  split.
  - rewrite <- Hc at 2. now rewrite concat_map.
  - rewrite <- Hc at 2. apply concat_by_chunks.
Qed.

Section PrintedLoss.

Variable F : Framework.
Variable optimizer : Optimizer.

Lemma for_fold_pass_stdout (bs : list Batch) (rl : R) (s : State) :
  stdout (fst (for_fold bs rl (training_pass F optimizer) s)) = stdout s.
Proof.
  revert rl s. induction bs as [|b bs IH]; intros rl s; simpl.
  - reflexivity.
  - unfold bind.
    pose proof (training_pass_stdout F optimizer b rl s) as Hp.
    destruct (training_pass F optimizer b rl s) as [s1 [x|rl1]]; simpl in Hp.
    + exact Hp.
    + now rewrite IH.
Qed.

Lemma epoch_completed (ld : Loader) (e : nat) (s s' : State) (u : unit) :
  epoch F optimizer ld e s = (s', inr u) ->
  exists s1 rl,
    for_fold (batches (shuffle F e) ld) 0 (training_pass F optimizer) s = (s1, inr rl) /\
    len ld <> 0%nat /\
    stdout s' = stdout s ++ [rl / INR (len ld)].
Proof.
  unfold epoch, bind. intros H.
  pose proof (for_fold_pass_stdout (batches (shuffle F e) ld) 0 s) as Hs.
  destruct (for_fold (batches (shuffle F e) ld) 0 (training_pass F optimizer) s)
    as [s1 [x|rl]]; [discriminate|]. simpl in Hs.
  exists s1, rl. split; [reflexivity|].
  unfold py_div in H. destruct (len ld =? 0)%nat eqn:El; [discriminate|].
  apply Nat.eqb_neq in El. split; [exact El|].
  unfold ret, print, bind, log in H. injection H as <- _. simpl. now rewrite Hs.
Qed.

(** A pass that completes from one running loss completes from any
    other, in the same state, having added the same loss. *)
Lemma training_pass_adds_its_loss (b : Batch) (rl rl' v : R) (s s1 : State) :
  training_pass F optimizer b rl s = (s1, inr v) ->
  exists loss,
    loss_in_pass F b s = Some loss /\
    v = rl + loss /\
    training_pass F optimizer b rl' s = (s1, inr (rl' + loss)).
Proof.
  unfold loss_in_pass, training_pass, flatten, zero_grad, forward, loss_of, backward,
    step, item, call, log, bind, ret, raise.
  destruct (shape (images b)) as [|n sh]; simpl; [discriminate|].
  destruct (view_flat (images b)) as [x|]; simpl; [|discriminate].
  rewrite !zero_grad_values.
  destruct (model_forward F (map value (params s)) x) as [e1|out]; simpl;
    [discriminate|].
  destruct (criterion F out (labels b)) as [e2|loss]; simpl; [discriminate|].
  rewrite !zero_grad_values.
  destruct (autograd F (map value (params s)) x (labels b)) as [e3|gs]; simpl;
    [discriminate|].
  intros H. injection H as <- <-.
  exists loss. repeat split; reflexivity.
Qed.

(** The running loss of a loop that completes is the losses of its
    passes added one after the other, in the order of the loop. *)
Lemma for_fold_pass_losses (bs : list Batch) (rl v : R) (s s' : State) :
  for_fold bs rl (training_pass F optimizer) s = (s', inr v) ->
  length (pass_losses F optimizer bs s) = length bs /\
  v = fold_left Rplus (pass_losses F optimizer bs s) rl.
Proof.
  revert rl s. induction bs as [|b bs IH]; intros rl s H.
  - simpl in H. unfold ret in H. injection H as _ <-. split; reflexivity.
  - simpl in H. unfold bind in H.
    destruct (training_pass F optimizer b rl s) as [s1 [x|rl1]] eqn:Ep; [discriminate|].
    destruct (training_pass_adds_its_loss b rl 0 rl1 s s1 Ep)
      as (loss & Hloss & -> & Hzero).
    apply IH in H. destruct H as [Hlen Hv].
    cbn [pass_losses]. rewrite Hloss, Hzero. cbn [length fold_left].
    split; [now rewrite Hlen | exact Hv].
Qed.

(** X14: an epoch that completes prints one value, the mean of the
    losses of its passes: the losses [criterion] returned, pass after
    pass, added in the order of the loop starting from 0, and divided by
    their number, which is [len(trainloader)]. *)
Theorem printed_loss_is_the_mean (ld : Loader) (e : nat) (s s' : State) :
  (0 < batch_size ld)%nat ->
  length (shuffle F e (dataset ld)) = length (dataset ld) ->
  epoch F optimizer ld e s = (s', inr tt) ->
  let losses := pass_losses F optimizer (batches (shuffle F e) ld) s in
  length losses = len ld /\
  len ld <> 0%nat /\
  stdout s' = stdout s ++ [fold_left Rplus losses 0 / INR (length losses)].
Proof.
  intros Hb Hlen H losses.
  destruct (epoch_completed ld e s s' tt H) as (s1 & rl & Hloop & Hn & Hout).
  destruct (for_fold_pass_losses _ _ _ _ _ Hloop) as [Hcount Hsum].
  fold losses in Hcount, Hsum.
  rewrite (batches_count (shuffle F e) ld Hb Hlen) in Hcount.
  split; [exact Hcount|]. split; [exact Hn|].
  now rewrite Hout, Hsum, Hcount.
Qed.

End PrintedLoss.

Lemma printed_loss_is_the_mean_witness :
  let losses :=
    pass_losses label_loss_framework training_optimizer
                (batches (shuffle label_loss_framework 0) fitting_loader) small_state in
  losses = [0; 1] /\
  length losses = len fitting_loader /\
  len fitting_loader <> 0%nat /\
  stdout (fst (epoch label_loss_framework training_optimizer fitting_loader 0 small_state))
    = stdout small_state ++ [fold_left Rplus losses 0 / INR (length losses)].
Proof.
  intros losses. split.
  - vm_compute. reflexivity.
  - apply (printed_loss_is_the_mean label_loss_framework training_optimizer
             fitting_loader 0 small_state).
    + simpl. lia.
    + reflexivity.
    + vm_compute. reflexivity.
Defined.

(** A loop whose passes each print [c] values prints [c] values per pass,
    after what was printed before. *)
Lemma for_fold_stdout {E A B : Type} (body : A -> B -> M E B) (c : nat) (l : list A) :
  (forall a acc s s' v, body a acc s = (s', inr v) ->
     exists out, stdout s' = stdout s ++ out /\ length out = c) ->
  forall acc s s' v,
    for_fold l acc body s = (s', inr v) ->
    exists out, stdout s' = stdout s ++ out /\ length out = (c * length l)%nat.
Proof.
  intros Hbody. induction l as [|a l IH]; intros acc s s' v H; simpl in H.
  - unfold ret in H. injection H as <- _. exists []. split.
    + now rewrite app_nil_r.
    + simpl. lia.
  - unfold bind in H.
    destruct (body a acc s) as [s1 [x|acc1]] eqn:Ea; [discriminate|].
    apply Hbody in Ea. destruct Ea as (out1 & Ho1 & Hl1).
    apply IH in H. destruct H as (out2 & Ho2 & Hl2).
    exists (out1 ++ out2). split.
    + now rewrite Ho2, Ho1, app_assoc.
    + rewrite length_app. simpl. lia.
Qed.

(** X15: a training cell that completes has printed exactly five
    training losses, one per epoch, after whatever was printed before;
    and its loader was not empty. *)
Theorem training_cell_prints_five_losses
        (F : Framework) (init : list Tensor) (ld : Loader) (s s' : State) :
  training_cell F init ld s = (s', inr tt) ->
  (exists printed, stdout s' = stdout s ++ printed /\ length printed = 5%nat) /\
  len ld <> 0%nat.
Proof.
  unfold training_cell, bind, new_model. intros H. unfold for_each in H.
  split.
  - apply (for_fold_stdout (fun e (_ : unit) => epoch F training_optimizer ld e) 1)
      in H.
    + destruct H as (out & Ho & Hl). exists out. split; [exact Ho|].
      rewrite Hl. reflexivity.
    + intros e acc s0 s0' [] H0.
      destruct (epoch_completed F training_optimizer ld e s0 s0' tt H0)
        as (s1 & rl & _ & _ & Hout).
      eexists. split; [exact Hout | reflexivity].
  - unfold epochs in H. simpl in H. unfold bind in H.
    destruct (epoch F training_optimizer ld 0 _) as [s1 [x|[]]] eqn:E0; [discriminate|].
    destruct (epoch_completed F training_optimizer ld 0 _ s1 tt E0)
      as (_ & _ & _ & Hn & _).
    exact Hn.
Qed.

Lemma training_cell_prints_five_losses_witness :
  (exists printed,
     stdout (fst (training_cell small_framework [mkTensor [2; 1]%nat [1; 2]]
                                fitting_loader small_state))
       = stdout small_state ++ printed /\
     length printed = 5%nat) /\
  len fitting_loader <> 0%nat.
Proof.
  apply (training_cell_prints_five_losses small_framework
           [mkTensor [2; 1]%nat [1; 2]] fitting_loader small_state).
  vm_compute. reflexivity.
Defined.

(** ** The single training step *)

Lemma single_step_completed (F : Framework) (b : Batch) (s s' : State) (u : unit) :
  single_step F b s = (s', inr u) ->
  exists gs,
    autograd F (map value (params s)) (resize_64_784 F (images b)) (labels b) = inr gs /\
    params s' =
      map (sgd_param (lr demo_optimizer))
          (accumulate_all
             (map (fun p => mkParam (value p) (option_map (tmap (fun _ => 0)) (grad p)))
                  (params s))
             gs).
Proof.
  unfold single_step, zero_grad, forward, loss_of, backward, step,
    call, log, bind, ret, raise.
  simpl. rewrite zero_grad_values.
  destruct (model_forward F (map value (params s)) (resize_64_784 F (images b)))
    as [e1|out]; simpl; [discriminate|].
  destruct (criterion F out (labels b)) as [e2|loss]; simpl; [discriminate|].
  rewrite zero_grad_values.
  destruct (autograd F (map value (params s)) (resize_64_784 F (images b)) (labels b))
    as [e3|gs]; simpl; [discriminate|].
  intros H. injection H as <-.
  exists gs. split; reflexivity.
Qed.

(** X16: the single training step, when it completes, replaces every
    parameter by its value minus 0.01 times the gradient autograd
    computes for the resized batch, whatever gradient the earlier
    backward pass of the notebook had left on it: [zero_grad] clears it
    before the new backward pass. *)
Theorem single_step_uses_fresh_gradient (F : Framework) (b : Batch) (s s' : State) :
  single_step F b s = (s', inr tt) ->
  exists gs,
    autograd F (map value (params s)) (resize_64_784 F (images b)) (labels b) = inr gs /\
    forall k w g0 g,
      nth_error (params s) k = Some (mkParam w g0) ->
      nth_error gs k = Some g ->
      length (data g) = length (data w) ->
      (forall old, g0 = Some old -> length (data old) = length (data w)) ->
      exists p',
        nth_error (params s') k = Some p' /\
        shape (value p') = shape w /\
        forall i, (i < length (data w))%nat ->
          nth i (data (value p')) 0 = nth i (data w) 0 - 0.01 * nth i (data g) 0.
Proof.
  intros H.
  destruct (single_step_completed F b s s' tt H) as (gs & Hgrad & Hparams).
  exists gs. split; [exact Hgrad|].
  intros k w g0 g Hk Hg Hlen Hold.
  exists (sgd_param (lr demo_optimizer)
            (accumulate (mkParam w (option_map (tmap (fun _ => 0)) g0)) g)).
  split.
  - rewrite Hparams, nth_error_map.
    erewrite nth_error_accumulate_all; [reflexivity | | exact Hg].
    rewrite nth_error_map, Hk. reflexivity.
  - split; [destruct g0; reflexivity|].
    intros i Hi.
    apply (fresh_gradient_update (lr demo_optimizer) w g g0 i Hlen Hold Hi).
Qed.

Lemma single_step_uses_fresh_gradient_witness :
  exists p',
    nth_error (params (fst (single_step small_framework small_batch small_state))) 0
      = Some p' /\
    shape (value p') = [2; 1]%nat /\
    forall i, (i < 2)%nat ->
      nth i (data (value p')) 0 = nth i [1; 2] 0 - 0.01 * nth i [1; 1] 0.
Proof.
  destruct (single_step_uses_fresh_gradient small_framework small_batch small_state
              (fst (single_step small_framework small_batch small_state)))
    as (gs & Hg & Hall).
  - vm_compute. reflexivity.
  - simpl in Hg. injection Hg as <-.
    apply (Hall 0%nat (mkTensor [2; 1]%nat [1; 2]) (Some (mkTensor [2; 1]%nat [3; 4]))
                (mkTensor [2; 1]%nat [1; 1])).
    + reflexivity.
    + reflexivity.
    + reflexivity.
    + intros old Hold. injection Hold as <-. reflexivity.
Defined.
